(** * Polymarket wallet tracker

    A shallow embedding of [polymarket_tracker.py]: the wallet registry and
    its [/add] command, the short-cycle scan [check_new_trades] with its
    set of seen transaction hashes, the long-cycle aggregation
    [generate_wallet_summary], and the job registration done by [run].

    Conventions of the embedding.
    - A Python [str] is a [string]; one [ascii] stands for one character, and
      [lower]/[upper]/[strip] act on the ASCII range.
    - A Python [float] is a binary64 [float] of the kernel, with its own
      addition and comparison.
    - A [dict] is an association list in insertion order, which is the order
      [.items()] yields.  A [set] is the list of its elements in the order
      they were inserted; the order in which the interpreter iterates over a
      set is not fixed by the language and is a field of [Runtime].
    - Code that may raise runs in the monad [M]: a state transformer that
      also returns [Ok] or [Raise].  Mutations made before an exception
      stay, as in Python.
    - [print] calls and [asyncio.sleep] pauses are left out. *)

From Stdlib Require Import List String Ascii Bool Arith ZArith Lia.
From Stdlib Require Import Permutation Sorted Floats DecimalString.
Import ListNotations.
Local Open Scope string_scope.

(** ** Python built-ins used by the program *)

Module Py.

(** *** Strings *)

Definition nl : string := String "010" EmptyString.

Definition lower_char (c : ascii) : ascii :=
  let n := nat_of_ascii c in
  if ((65 <=? n) && (n <=? 90))%nat then ascii_of_nat (n + 32) else c.

Definition upper_char (c : ascii) : ascii :=
  let n := nat_of_ascii c in
  if ((97 <=? n) && (n <=? 122))%nat then ascii_of_nat (n - 32) else c.

Fixpoint map_string (f : ascii -> ascii) (s : string) : string :=
  match s with
  | EmptyString => EmptyString
  | String c r => String (f c) (map_string f r)
  end.

(** [s.lower()] and [s.upper()]. *)
Definition lower : string -> string := map_string lower_char.
Definition upper : string -> string := map_string upper_char.

(** The characters [str.strip()] and [str.split()] treat as white space. *)
Definition isspace (c : ascii) : bool :=
  let n := nat_of_ascii c in
  ((n =? 32) || ((9 <=? n) && (n <=? 13)) || ((28 <=? n) && (n <=? 31)))%nat.

Fixpoint lstrip (s : string) : string :=
  match s with
  | String c r => if isspace c then lstrip r else s
  | EmptyString => EmptyString
  end.

Definition rev_string (s : string) : string :=
  string_of_list_ascii (rev (list_ascii_of_string s)).

(** [s.strip()]. *)
Definition strip (s : string) : string :=
  rev_string (lstrip (rev_string (lstrip s))).

(** [s.startswith(p)]. *)
Definition startswith (s p : string) : bool := String.prefix p s.

(** [s[:n]] and [s[-n:]] (for [n > 0]). *)
Definition slice_to (n : nat) (s : string) : string := substring 0 n s.
Definition slice_last (n : nat) (s : string) : string :=
  substring (String.length s - n) n s.

(** [sep.join(l)]. *)
Definition join (sep : string) (l : list string) : string := String.concat sep l.

(** [str(n)] for a non-negative integer. *)
Definition str_nat (n : nat) : string := NilEmpty.string_of_uint (Nat.to_uint n).

(** [s.replace(a, b)] for single characters. *)
Definition replace_char (a b : ascii) : string -> string :=
  map_string (fun c => if Ascii.eqb c a then b else c).

(** [s.split()]: the maximal runs of characters that are not white space. *)
Fixpoint split_from (cur : string) (s : string) : list string :=
  match s with
  | EmptyString => if cur =? "" then [] else [cur]
  | String c r =>
      if isspace c
      then (if cur =? "" then split_from "" r else cur :: split_from "" r)
      else split_from (cur ++ String c EmptyString) r
  end.
Definition split : string -> list string := split_from "".

(** [str * n] for the one use in the banner line. *)
Fixpoint repeat_string (s : string) (n : nat) : string :=
  match n with
  | O => ""
  | S k => s ++ repeat_string s k
  end.

(** *** Lists *)

(** [l[-n:]] (for [n > 0]): the last [n] elements, all of [l] when it is shorter. *)
Definition last_n {A} (n : nat) (l : list A) : list A :=
  skipn (List.length l - n) l.

(** [enumerate(l, 1)]. *)
Definition enumerate1 {A} (l : list A) : list (nat * A) :=
  combine (seq 1 (List.length l)) l.

(** [sorted(l, key=key, reverse=True)].  Python's sort is stable, and with
    [reverse=True] elements with equal keys keep their original order, so
    the result is the one list that is a descending rearrangement keeping
    that order; insertion from the right computes it. *)
Fixpoint insert_desc {A} (key : A -> nat) (x : A) (l : list A) : list A :=
  match l with
  | [] => [x]
  | y :: r => if (key x <? key y)%nat then y :: insert_desc key x r else x :: y :: r
  end.

Fixpoint sorted_desc {A} (key : A -> nat) (l : list A) : list A :=
  match l with
  | [] => []
  | x :: r => insert_desc key x (sorted_desc key r)
  end.

(** *** Sets of strings *)

(** The elements in the order of their insertion, each once. *)
Definition pyset := list string.

(** [x in s]. *)
Definition set_contains (x : string) (s : pyset) : bool := existsb (String.eqb x) s.

(** [s.add(x)]. *)
Definition set_add (x : string) (s : pyset) : pyset :=
  if set_contains x s then s else (s ++ [x])%list.

(** [set(l)]. *)
Definition set_of_list (l : list string) : pyset :=
  fold_left (fun s x => set_add x s) l [].

(** [len(s)]. *)
Definition set_len (s : pyset) : nat := List.length s.

(** *** Dictionaries with string keys *)

Definition dict (V : Type) := list (string * V).

Fixpoint dict_get {V} (k : string) (d : dict V) : option V :=
  match d with
  | [] => None
  | (k', v) :: r => if k' =? k then Some v else dict_get k r
  end.

(** [k in d]. *)
Definition dict_contains {V} (k : string) (d : dict V) : bool :=
  match dict_get k d with Some _ => true | None => false end.

(** [d[k] = v]: an existing key keeps its place, a new one goes last. *)
Fixpoint dict_set {V} (k : string) (v : V) (d : dict V) : dict V :=
  match d with
  | [] => [(k, v)]
  | (k', v') :: r => if k' =? k then (k', v) :: r else (k', v') :: dict_set k v r
  end.

(** [d.pop(k)], the dictionary part. *)
Fixpoint dict_pop {V} (k : string) (d : dict V) : dict V :=
  match d with
  | [] => []
  | (k', v') :: r => if k' =? k then r else (k', v') :: dict_pop k r
  end.

(** [d.update(other)]. *)
Definition dict_update {V} (d other : dict V) : dict V :=
  fold_left (fun acc kv => dict_set (fst kv) (snd kv) acc) other d.

(** [d[k]] on a [defaultdict] followed by a mutation [f] of the value: a
    missing key is first bound to [default]. *)
Fixpoint dd_update {V} (default : V) (k : string) (f : V -> V) (d : dict V) : dict V :=
  match d with
  | [] => [(k, f default)]
  | (k', v') :: r =>
      if k' =? k then (k', f v') :: r else (k', v') :: dd_update default k f r
  end.

(** *** Exceptions and state *)

Inductive exn := ValueError | TypeError | TelegramError.

Inductive result (A : Type) :=
| Ok (a : A)
| Raise (e : exn).
Arguments Ok {A} a.
Arguments Raise {A} e.

Definition M (S A : Type) : Type := S -> S * result A.

Definition ret {S A} (a : A) : M S A := fun s => (s, Ok a).

Definition bind {S A B} (m : M S A) (k : A -> M S B) : M S B :=
  fun s =>
    match m s with
    | (s', Ok a) => k a s'
    | (s', Raise e) => (s', Raise e)
    end.

Definition raise {S A} (e : exn) : M S A := fun s => (s, Raise e).

Definition get {S} : M S S := fun s => (s, Ok s).
Definition modify {S} (f : S -> S) : M S unit := fun s => (f s, Ok tt).

(** A computation that touches no state, run inside [M]. *)
Definition lift {S A} (r : result A) : M S A := fun s => (s, r).

(** [try: m  except Exception: handler]. *)
Definition try_except {S} (m : M S unit) (handler : exn -> M S unit) : M S unit :=
  fun s =>
    match m s with
    | (s', Ok tt) => (s', Ok tt)
    | (s', Raise e) => handler e s'
    end.

(** [for x in l: body x]; an exception leaves the loop. *)
Fixpoint for_each {S X} (l : list X) (body : X -> M S unit) : M S unit :=
  match l with
  | [] => ret tt
  | x :: r => bind (body x) (fun _ => for_each r body)
  end.

Definition exec {S A} (m : M S A) (s : S) : S := fst (m s).

(** *** Values read from JSON where a number is expected *)

(** [JNum x] is a JSON number, given by the float that [float()] makes of
    it.  A JSON string carries what [float(s)] makes of it: [Some x], or
    [None] when [float] raises [ValueError]; the grammar of float literals
    is not modelled. *)
Inductive json :=
| JNull
| JNum (x : float)
| JStr (s : string) (parsed : option float).

(** Truth value, as [or] tests it. *)
Definition truthy (v : json) : bool :=
  match v with
  | JNull => false
  | JNum x => negb (PrimFloat.eqb x 0)
  | JStr s _ => negb (s =? "")
  end.

(** [float(v)]. *)
Definition py_float (v : json) : result float :=
  match v with
  | JNum x => Ok x
  | JStr _ (Some x) => Ok x
  | JStr _ None => Raise ValueError
  | JNull => Raise TypeError
  end.

(** [float(act.get(key, 0) or 0)], for the field as [act.get(key)] finds it
    ([None] when the key is absent). *)
Definition float_or_zero (field : option json) : result float :=
  let v := match field with Some v => v | None => JNum 0 end in
  py_float (if truthy v then v else JNum 0).

(** *** Formatting floats: [format(x, '.Nf')] and [format(x, ',.Nf')] *)

(** [n / d] rounded to the nearest integer, ties to even ([0 <= n], [0 < d]). *)
Definition round_half_even (n d : Z) : Z :=
  let q := (n / d)%Z in
  match (2 * (n mod d) ?= d)%Z with
  | Lt => q
  | Gt => (q + 1)%Z
  | Eq => if Z.even q then q else (q + 1)%Z
  end.

(** [m * 2^e * 10^digits], rounded. *)
Definition scaled (digits : nat) (m : positive) (e : Z) : Z :=
  let p := (Z.pos m * 10 ^ Z.of_nat digits)%Z in
  if (0 <=? e)%Z then (p * 2 ^ e)%Z else round_half_even p (2 ^ (- e))%Z.

Definition str_Z (z : Z) : string := NilEmpty.string_of_uint (N.to_uint (Z.to_N z)).

(** Commas between groups of three digits, counted from the right. *)
Fixpoint group3 (rev_digits : list ascii) : list ascii :=
  match rev_digits with
  | a :: b :: c :: ((_ :: _) as r) => a :: b :: c :: ","%char :: group3 r
  | l => l
  end.

Definition with_commas (s : string) : string :=
  string_of_list_ascii (rev (group3 (rev (list_ascii_of_string s)))).

(** The decimal digits of the scaled value [z], with the point [digits]
    places from the right. *)
Definition fixed_digits (comma : bool) (digits : nat) (z : Z) : string :=
  let s := str_Z z in
  let s := repeat_string "0" (S digits - String.length s) ++ s in
  let int_part := substring 0 (String.length s - digits) s in
  let frac := substring (String.length s - digits) digits s in
  (if comma then with_commas int_part else int_part)
    ++ (if (digits =? 0)%nat then "" else "." ++ frac).

Definition format_f (comma : bool) (digits : nat) (x : float) : string :=
  match Prim2SF x with
  | S754_nan => "nan"
  | S754_infinity s => (if s then "-" else "") ++ "inf"
  | S754_zero s => (if s then "-" else "") ++ fixed_digits comma digits 0
  | S754_finite s m e =>
      (if s then "-" else "") ++ fixed_digits comma digits (scaled digits m e)
  end.

(** [float(n)] for a length. *)
Definition float_of_nat (n : nat) : float :=
  PrimFloat.of_uint63 (Uint63.of_Z (Z.of_nat n)).

(** [Counter(l)]: each distinct element with its number of occurrences, in
    the order of first occurrence. *)
Fixpoint counter_add (x : string) (c : list (string * nat)) : list (string * nat) :=
  match c with
  | [] => [(x, 1)]
  | (y, n) :: r => if y =? x then (y, S n) :: r else (y, n) :: counter_add x r
  end.

Definition counter (l : list string) : list (string * nat) :=
  fold_left (fun c x => counter_add x c) l [].

(** [c.most_common(1)]: the first entry among those with the largest count. *)
Fixpoint first_max (best : string * nat) (c : list (string * nat)) : string * nat :=
  match c with
  | [] => best
  | x :: r => first_max (if (snd best <? snd x)%nat then x else best) r
  end.

Definition most_common1 (c : list (string * nat)) : option (string * nat) :=
  match c with
  | [] => None
  | x :: r => Some (first_max x r)
  end.

(** What the language leaves to the interpreter. *)
Class Runtime := {
  (** [list(s)] / [for x in s] for a set with insertion history [s] *)
  iter_order : list string -> list string;
  iter_order_perm : forall s, Permutation (iter_order s) s;
  (** the built-in [sum] on floats (its rounding differs between versions) *)
  py_sum : list float -> float
}.

End Py.

Import Py.

Declare Scope py_scope.
Notation "x <- m ;; k" := (bind m (fun x => k))
  (at level 61, m at next level, right associativity) : py_scope.
Notation "m ;;; k" := (bind m (fun _ => k))
  (at level 61, right associativity) : py_scope.
Local Open Scope py_scope.

(** ** Configuration *)

Definition CHECK_INTERVAL : Z := 30.
Definition SUMMARY_INTERVAL_HOURS : Z := 1.

(** ** Data *)

(** One element of the array the activity endpoint returns, when it is a JSON
    object.  A text field is [None] when its key is absent; the two numeric
    fields hold whatever JSON value the key has. *)
Module Act.
Record t := {
  type : option string;
  transactionHash : option string;
  side : option string;
  title : option string;
  outcome : option string;
  usdcSize : option json;
  price : option json
}.
End Act.

Inductive activity :=
| NotDict                (* an element for which [isinstance(act, dict)] fails *)
| Dict (d : Act.t).

(** [act.get(key, default)] for a text field. *)
Definition get_or (field : option string) (default : string) : string :=
  match field with Some v => v | None => default end.

(** [act.get('type') == 'TRADE']. *)
Definition is_trade (d : Act.t) : bool :=
  match Act.type d with Some v => v =? "TRADE" | None => false end.

(** The value a [market_buys] entry holds. *)
Module Market.
Record t := {
  wallets : pyset;
  wallet_names : list string;
  buy_count : nat;
  sell_count : nat;
  total_usdc : float;
  prices : list float;
  outcomes : list string;
  trader_names : pyset
}.

(** The [defaultdict] factory. *)
Definition default : t :=
  {| wallets := []; wallet_names := []; buy_count := 0; sell_count := 0;
     total_usdc := 0%float; prices := []; outcomes := []; trader_names := [] |}.

Definition add_wallet (address : string) (d : t) : t :=
  {| wallets := set_add address (wallets d); wallet_names := wallet_names d;
     buy_count := buy_count d; sell_count := sell_count d;
     total_usdc := total_usdc d; prices := prices d; outcomes := outcomes d;
     trader_names := trader_names d |}.

Definition append_wallet_name (name : string) (d : t) : t :=
  {| wallets := wallets d; wallet_names := (wallet_names d ++ [name])%list;
     buy_count := buy_count d; sell_count := sell_count d;
     total_usdc := total_usdc d; prices := prices d; outcomes := outcomes d;
     trader_names := trader_names d |}.

Definition add_usdc (usdc : float) (d : t) : t :=
  {| wallets := wallets d; wallet_names := wallet_names d;
     buy_count := buy_count d; sell_count := sell_count d;
     total_usdc := (total_usdc d + usdc)%float; prices := prices d;
     outcomes := outcomes d; trader_names := trader_names d |}.

Definition add_trader_name (name : string) (d : t) : t :=
  {| wallets := wallets d; wallet_names := wallet_names d;
     buy_count := buy_count d; sell_count := sell_count d;
     total_usdc := total_usdc d; prices := prices d; outcomes := outcomes d;
     trader_names := set_add name (trader_names d) |}.

Definition append_price (p : float) (d : t) : t :=
  {| wallets := wallets d; wallet_names := wallet_names d;
     buy_count := buy_count d; sell_count := sell_count d;
     total_usdc := total_usdc d; prices := (prices d ++ [p])%list;
     outcomes := outcomes d; trader_names := trader_names d |}.

Definition append_outcome (o : string) (d : t) : t :=
  {| wallets := wallets d; wallet_names := wallet_names d;
     buy_count := buy_count d; sell_count := sell_count d;
     total_usdc := total_usdc d; prices := prices d;
     outcomes := (outcomes d ++ [o])%list; trader_names := trader_names d |}.

Definition incr_buy (d : t) : t :=
  {| wallets := wallets d; wallet_names := wallet_names d;
     buy_count := S (buy_count d); sell_count := sell_count d;
     total_usdc := total_usdc d; prices := prices d; outcomes := outcomes d;
     trader_names := trader_names d |}.

Definition incr_sell (d : t) : t :=
  {| wallets := wallets d; wallet_names := wallet_names d;
     buy_count := buy_count d; sell_count := S (sell_count d);
     total_usdc := total_usdc d; prices := prices d; outcomes := outcomes d;
     trader_names := trader_names d |}.
End Market.

(** The file [wallets.json], as [load_wallets] meets it.  [wallets.update]
    takes the pairs of the loaded value one after the other (the members of
    an object, or the elements of an array as long as they are pairs), so
    pairs inserted before it raises stay in the registry. *)
Inductive wallets_json :=
| NoFile
| Unreadable                      (* [open] or [json.load] raises *)
| Partial (inserted : dict string) (* [update] raises after these pairs *)
| Saved (d : dict string).        (* [update] takes every pair *)

(** The tracker object with what it has written so far.
    [wallets] and [seen_txs] are the attributes of [PolymarketTracker];
    [wallets_file] is the file on disk; [channel] lists the texts
    [bot.send_message] delivered to [DEST_CHANNEL], [replies] the texts
    passed to [update.message.reply_text]; [alerts] records, for each trade
    message handed to [send_telegram], the transaction hash it reports. *)
Record tracker := {
  wallets : dict string;
  seen_txs : pyset;
  wallets_file : wallets_json;
  channel : list string;
  replies : list string;
  alerts : list string
}.

Definition with_wallets (v : dict string) (st : tracker) : tracker :=
  {| wallets := v; seen_txs := seen_txs st; wallets_file := wallets_file st;
     channel := channel st; replies := replies st; alerts := alerts st |}.

Definition with_seen_txs (v : pyset) (st : tracker) : tracker :=
  {| wallets := wallets st; seen_txs := v; wallets_file := wallets_file st;
     channel := channel st; replies := replies st; alerts := alerts st |}.

Definition with_wallets_file (v : wallets_json) (st : tracker) : tracker :=
  {| wallets := wallets st; seen_txs := seen_txs st; wallets_file := v;
     channel := channel st; replies := replies st; alerts := alerts st |}.

Definition deliver (text : string) (st : tracker) : tracker :=
  {| wallets := wallets st; seen_txs := seen_txs st; wallets_file := wallets_file st;
     channel := (channel st ++ [text])%list; replies := replies st;
     alerts := alerts st |}.

Definition reply (text : string) (st : tracker) : tracker :=
  {| wallets := wallets st; seen_txs := seen_txs st; wallets_file := wallets_file st;
     channel := channel st; replies := (replies st ++ [text])%list;
     alerts := alerts st |}.

Definition note_alert (tx_hash : string) (st : tracker) : tracker :=
  {| wallets := wallets st; seen_txs := seen_txs st; wallets_file := wallets_file st;
     channel := channel st; replies := replies st;
     alerts := (alerts st ++ [tx_hash])%list |}.

(** What the outside answers during one pass. *)
Inductive response :=
| NoResponse                                           (* [requests.get] raises *)
| Http (status : Z) (body : option (list activity)).  (* [None]: [resp.json()] raises *)

Record world := {
  http_activity : string -> nat -> response;  (* GET /activity?user=..&limit=.. *)
  bot_delivers : string -> bool;              (* does [bot.send_message] succeed *)
  time_hms : string;                          (* now, as '%H:%M:%S' *)
  time_dmy_hm : string                        (* now, as '%d/%m/%Y %H:%M' *)
}.

(** ** Wallet registry *)

(** [load_wallets()], from the value of [TRACKED_WALLETS] and the file. *)
Definition load_wallets (tracked_wallets : string) (file : wallets_json) : dict string :=
  let _raw := split (replace_char "," " " tracked_wallets) in
  let wallets :=
    fold_left
      (fun wallets w =>
         let w := lower (strip w) in
         if startswith w "0x"
         then dict_set w ("Wallet " ++ slice_to 8 w) wallets
         else wallets)
      _raw [] in
  match file with
  | Saved saved | Partial saved => dict_update wallets saved
  | NoFile | Unreadable => wallets
  end.

(** [save_wallets(wallets)]. *)
Definition save_wallets (wallets : dict string) : M tracker unit :=
  modify (with_wallets_file (Saved wallets)).

(** [PolymarketTracker.__init__]. *)
Definition init (tracked_wallets : string) (file : wallets_json) : tracker :=
  {| wallets := load_wallets tracked_wallets file; seen_txs := [];
     wallets_file := file; channel := []; replies := []; alerts := [] |}.

Definition usage_add : string :=
  "Usage: /add 0xADRESSE nom_du_wallet" ++ nl ++
  "Exemple: /add 0xbb015bb...e5 WhaleAlpha".

Definition invalid_address : string :=
  "❌ Adresse invalide. Elle doit commencer par 0x".

Definition wallet_added (name address : string) (total : nat) : string :=
  "✅ Wallet ajouté!" ++ nl ++
  "📛 Nom: " ++ name ++ nl ++
  "👛 Adresse: " ++ slice_to 10 address ++ "..." ++ slice_last 4 address ++ nl ++
  "📊 Total wallets: " ++ str_nat total.

(** [cmd_add], with [context.args] as argument. *)
Definition cmd_add (args : list string) : M tracker unit :=
  match args with
  | [] => modify (reply usage_add)
  | arg0 :: rest =>
      let address := lower (strip arg0) in
      let name :=
        match rest with
        | _ :: _ => join " " rest
        | [] => "Wallet " ++ slice_to 8 address
        end in
      if negb (startswith address "0x") || (String.length address <? 10)%nat
      then modify (reply invalid_address)
      else
        modify (fun st => with_wallets (dict_set address name (wallets st)) st) ;;;
        st <- get ;;
        save_wallets (wallets st) ;;;
        st <- get ;;
        modify (reply (wallet_added name address (List.length (wallets st))))
  end.

(** [cmd_remove]. *)
Definition cmd_remove (args : list string) : M tracker unit :=
  match args with
  | [] => modify (reply "Usage: /remove 0xADRESSE")
  | arg0 :: _ =>
      let address := lower (strip arg0) in
      st <- get ;;
      match dict_get address (wallets st) with
      | Some name =>
          modify (with_wallets (dict_pop address (wallets st))) ;;;
          st <- get ;;
          save_wallets (wallets st) ;;;
          modify (reply ("✅ Wallet supprimé: " ++ name))
      | None => modify (reply "❌ Wallet non trouvé")
      end
  end.

(** ** Upstream API and Telegram *)

(** [get_wallet_activity(wallet, limit)]. *)
Definition get_wallet_activity (w : world) (wallet : string) (limit : nat) : list activity :=
  match http_activity w wallet limit with
  | Http status (Some records) => if (status =? 200)%Z then records else []
  | _ => []
  end.

(** [message[i:i + 4000] for i in range(0, len(message), 4000)]. *)
Definition chunks (message : string) : list string :=
  map (fun k => substring (4000 * k) 4000 message)
      (seq 0 ((String.length message + 3999) / 4000)).

(** [send_telegram(message)]: a failed delivery ends the sending and is
    swallowed. *)
Definition send_telegram (w : world) (message : string) : M tracker unit :=
  let send_message text : M tracker unit :=
    if bot_delivers w text then modify (deliver text) else raise TelegramError in
  try_except
    (if (4000 <? String.length message)%nat
     then for_each (chunks message) send_message
     else send_message message)
    (fun _ => ret tt).

(** ** Short cycle: new trades *)

Definition trade_message (w : world) (name side title outcome : string)
    (usdc price : float) : string :=
  let emoji := if side =? "BUY" then "🟢" else "🔴" in
  emoji ++ " " ++ side ++ " - " ++ name ++ nl ++ nl ++
  "📊 " ++ title ++ nl ++
  "🎯 Outcome: " ++ outcome ++ nl ++
  "💰 $" ++ format_f true 2 usdc ++ " @ " ++ format_f false 2 price ++ nl ++
  "⏰ " ++ time_hms w.

(** The body of the inner loop of [check_new_trades]. *)
Definition check_activity (w : world) (name : string) (act : activity) : M tracker unit :=
  match act with
  | NotDict => ret tt
  | Dict d =>
      if negb (is_trade d) then ret tt else
      let tx_hash := get_or (Act.transactionHash d) "" in
      st <- get ;;
      if (tx_hash =? "") || set_contains tx_hash (seen_txs st) then ret tt else
      modify (with_seen_txs (set_add tx_hash (seen_txs st))) ;;;
      let side := get_or (Act.side d) "N/A" in
      let title := get_or (Act.title d) "Unknown" in
      usdc <- lift (float_or_zero (Act.usdcSize d)) ;;
      price <- lift (float_or_zero (Act.price d)) ;;
      let outcome := get_or (Act.outcome d) "" in
      let msg := trade_message w name side title outcome usdc price in
      modify (note_alert tx_hash) ;;;
      send_telegram w msg
  end.

(** The body of the outer loop: one wallet, inside its [try]. *)
Definition check_wallet (w : world) (item : string * string) : M tracker unit :=
  let (address, name) := item in
  try_except
    (let activities := get_wallet_activity w address 5 in
     for_each activities (check_activity w name))
    (fun _ => ret tt).

Definition scan_wallets (w : world) : M tracker unit :=
  st <- get ;;
  for_each (wallets st) (check_wallet w).

(** The clean-up that ends [check_new_trades]. *)
Definition compact_seen_txs `{Runtime} : M tracker unit :=
  st <- get ;;
  if (2000 <? set_len (seen_txs st))%nat
  then modify (with_seen_txs (set_of_list (last_n 1000 (iter_order (seen_txs st)))))
  else ret tt.

Definition check_new_trades `{Runtime} (w : world) : M tracker unit :=
  scan_wallets w ;;;
  compact_seen_txs.

(** ** Long cycle: summary by market *)

(** The local variables of [generate_wallet_summary]. *)
Record summary_state := {
  market_buys : dict Market.t;
  total_trades : nat
}.

Definition count_trade (s : summary_state) : summary_state :=
  {| market_buys := market_buys s; total_trades := S (total_trades s) |}.

(** [market_buys[title][..]] followed by the mutation [f]. *)
Definition on_market (title : string) (f : Market.t -> Market.t) : M summary_state unit :=
  modify (fun s =>
    {| market_buys := dd_update Market.default title f (market_buys s);
       total_trades := total_trades s |}).

(** The body of the inner loop of [generate_wallet_summary]. *)
Definition fold_activity (address name : string) (act : activity) : M summary_state unit :=
  match act with
  | NotDict => ret tt
  | Dict d =>
      if negb (is_trade d) then ret tt else
      let title := get_or (Act.title d) "" in
      if title =? "" then ret tt else
      modify count_trade ;;;
      let side := get_or (Act.side d) "" in
      usdc <- lift (float_or_zero (Act.usdcSize d)) ;;
      price <- lift (float_or_zero (Act.price d)) ;;
      let outcome := get_or (Act.outcome d) "" in
      on_market title (Market.add_wallet address) ;;;
      on_market title (Market.append_wallet_name name) ;;;
      on_market title (Market.add_usdc usdc) ;;;
      on_market title (Market.add_trader_name name) ;;;
      (if PrimFloat.ltb 0 price
       then on_market title (Market.append_price price) else ret tt) ;;;
      (if negb (outcome =? "")
       then on_market title (Market.append_outcome outcome) else ret tt) ;;;
      if upper side =? "BUY" then on_market title Market.incr_buy
      else if upper side =? "SELL" then on_market title Market.incr_sell
      else ret tt
  end.

(** The outer loop: every wallet's last 50 activities. *)
Definition fold_wallets (w : world) (wallets : dict string) : M summary_state unit :=
  for_each wallets
    (fun item =>
       let (address, name) := item in
       for_each (get_wallet_activity w address 50) (fold_activity address name)).

(** [sorted_markets[:15]]. *)
Definition ranked_markets (market_buys : dict Market.t) : list (string * Market.t) :=
  firstn 15 (sorted_desc (fun x => Market.buy_count (snd x)) market_buys).

(** The line that lists who traded the market. *)
Definition traders_line `{Runtime} (data : Market.t) : string :=
  let traders := join ", " (iter_order (Market.trader_names data)) in
  "   👛 " ++ traders.

(** The five lines of one market. *)
Definition market_lines `{Runtime} (entry : nat * (string * Market.t)) : list string :=
  let '(i, (market, data)) := entry in
  let avg_price :=
    match Market.prices data with
    | [] => 0%float
    | _ => (py_sum (Market.prices data) / float_of_nat (List.length (Market.prices data)))%float
    end in
  let wallet_count := set_len (Market.wallets data) in
  let fire :=
    if (5 <=? Market.buy_count data)%nat then "🔥🔥🔥 "
    else if (3 <=? Market.buy_count data)%nat then "🔥🔥 "
    else if (2 <=? Market.buy_count data)%nat then "🔥 "
    else "" in
  let top_outcome :=
    match most_common1 (counter (Market.outcomes data)) with
    | Some top => " → " ++ fst top
    | None => ""
    end in
  [ str_nat i ++ ". " ++ slice_to 55 market;
    "   " ++ fire ++ "BUY: " ++ str_nat (Market.buy_count data) ++
      " | SELL: " ++ str_nat (Market.sell_count data) ++
      " | Wallets: " ++ str_nat wallet_count;
    "   Vol: $" ++ format_f true 0 (Market.total_usdc data) ++
      " | Prix moy: " ++ format_f false 2 avg_price ++ top_outcome;
    traders_line data;
    "" ].

Definition header_lines (w : world) (n_wallets total_trades : nat) : list string :=
  [ "📊 RÉSUMÉ ACHATS WALLETS";
    "⏰ " ++ time_dmy_hm w;
    "👛 " ++ str_nat n_wallets ++ " wallets | " ++ str_nat total_trades ++ " trades";
    repeat_string "=" 30 ++ nl ].

(** The report for the state the loops end in. *)
Definition render_summary `{Runtime} (w : world) (n_wallets : nat) (s : summary_state) : string :=
  match market_buys s with
  | [] => ""
  | _ =>
      let lines :=
        (header_lines w n_wallets (total_trades s) ++
         flat_map market_lines (enumerate1 (ranked_markets (market_buys s))))%list in
      join nl lines
  end.

Definition empty_summary : summary_state := {| market_buys := []; total_trades := 0 |}.

(** [generate_wallet_summary()].  Its locals live only during the call; an
    exception of the loops goes to the caller. *)
Definition generate_wallet_summary `{Runtime} (w : world) : M tracker string :=
  st <- get ;;
  match fold_wallets w (wallets st) empty_summary with
  | (s, Ok tt) => ret (render_summary w (List.length (wallets st)) s)
  | (_, Raise e) => raise e
  end.

(** ** Periodic jobs and commands that run them *)

(** [periodic_check]. *)
Definition periodic_check `{Runtime} (w : world) : M tracker unit :=
  try_except (check_new_trades w) (fun _ => ret tt).

(** [periodic_summary]. *)
Definition periodic_summary `{Runtime} (w : world) : M tracker unit :=
  try_except
    (summary <- generate_wallet_summary w ;;
     if negb (summary =? "") then send_telegram w summary else ret tt)
    (fun _ => ret tt).

(** [cmd_summary]. *)
Definition cmd_summary `{Runtime} (w : world) : M tracker unit :=
  modify (reply "⏳ Analyse en cours...") ;;;
  summary <- generate_wallet_summary w ;;
  if negb (summary =? "") then send_telegram w summary
  else modify (reply "⚠️ Aucune donnée trouvée").

(** ** Start-up *)

Inductive callback := PeriodicCheck | PeriodicSummary.

(** A job of the job queue: [run_repeating(callback, interval, first)], in seconds. *)
Record job := {
  job_callback : callback;
  interval : Z;
  first : Z
}.

Inductive handler := CmdStart | CmdHelp | CmdAdd | CmdRemove | CmdList | CmdSummary.

Record application := {
  handlers : list (string * handler);
  jobs : list job
}.

Definition started (n_wallets : nat) : string :=
  "🚀 Bot Polymarket démarré!" ++ nl ++
  "👛 " ++ str_nat n_wallets ++ " wallets surveillés" ++ nl ++
  "📊 Résumé auto toutes les " ++ str_Z SUMMARY_INTERVAL_HOURS ++ "h" ++ nl ++ nl ++
  "Commandes: /add /remove /list /summary /help".

(** [run()], up to the point where it starts polling: the handlers and jobs
    it registers, and the start-up message. *)
Definition run (w : world) : M tracker application :=
  let app :=
    {| handlers :=
         [ ("start", CmdStart); ("help", CmdHelp); ("add", CmdAdd);
           ("remove", CmdRemove); ("list", CmdList); ("summary", CmdSummary) ];
       jobs :=
         [ {| job_callback := PeriodicSummary;
              interval := SUMMARY_INTERVAL_HOURS * 3600;
              first := 60 |} ] |} in
  st <- get ;;
  send_telegram w (started (List.length (wallets st))) ;;;
  ret app.

(** A repeating job is due [first] seconds after start-up and every
    [interval] seconds from then on. *)
Definition due (t : Z) (j : job) : bool :=
  ((first j <=? t) && ((t - first j) mod interval j =? 0))%Z.

Definition run_callback `{Runtime} (w : world) (c : callback) : M tracker unit :=
  match c with
  | PeriodicCheck => periodic_check w
  | PeriodicSummary => periodic_summary w
  end.


(** ** Runs of the short cycle *)

(** One call of [check_new_trades] per element of [ws]. *)
Definition run_passes `{Runtime} (ws : list world) (st : tracker) : tracker :=
  fold_left (fun st w => exec (check_new_trades w) st) ws st.

(** No pass of the run finds more than 2000 hashes at its clean-up. *)
Fixpoint no_compaction `{Runtime} (ws : list world) (st : tracker) : Prop :=
  match ws with
  | [] => True
  | w :: r =>
      set_len (seen_txs (exec (scan_wallets w) st)) <= 2000 /\
      no_compaction r (exec (check_new_trades w) st)
  end.

(** ** Two interpreters to evaluate with *)

(** Plain left-to-right summation from 0. *)
Definition sum_left (l : list float) : float := fold_left PrimFloat.add l 0%float.

(** Sets that iterate in insertion order. *)
#[local] Instance insertion_order : Runtime :=
  {| iter_order := fun s => s;
     iter_order_perm := fun s => Permutation_refl s;
     py_sum := sum_left |}.

(** Sets that iterate from the newest element to the oldest. *)
#[local] Instance newest_first : Runtime :=
  {| iter_order := fun s => rev s;
     iter_order_perm := fun s => Permutation_sym (Permutation_rev s);
     py_sum := sum_left |}.

(** ** Sample data *)

Definition trade (tx side title outcome : string) (usdc price : float) : activity :=
  Dict {| Act.type := Some "TRADE"; Act.transactionHash := Some tx;
          Act.side := Some side; Act.title := Some title;
          Act.outcome := Some outcome;
          Act.usdcSize := Some (JNum usdc); Act.price := Some (JNum price) |}.

(** A world whose API answers 200 with [feed address], whatever the limit. *)
Definition world_of (feed : string -> list activity) : world :=
  {| http_activity := fun address _ => Http 200 (Some (feed address));
     bot_delivers := fun _ => true;
     time_hms := "12:00:00";
     time_dmy_hm := "01/01/2025 12:00" |}.

Definition alpha : string := "0xaaaaaaaaaaaaaaaa".
Definition beta : string := "0xbbbbbbbbbbbbbbbb".

Definition two_wallets : tracker :=
  {| wallets := [(alpha, "Alpha"); (beta, "Beta")]; seen_txs := [];
     wallets_file := NoFile; channel := []; replies := []; alerts := [] |}.

(** The application [run] registers, for reading its job list. *)
Definition registered (r : tracker * result application) : application :=
  match snd r with
  | Ok app => app
  | Raise _ => {| handlers := []; jobs := [] |}
  end.

(** The callbacks the job queue runs at second [t]. *)
Definition due_callbacks (app : application) (t : Z) : list callback :=
  map job_callback (filter (due t) (jobs app)).

Definition is_check (c : callback) : bool :=
  match c with PeriodicCheck => true | PeriodicSummary => false end.

(** The name [cmd_add] gives the wallet. *)
Definition add_name (address : string) (rest : list string) : string :=
  match rest with
  | _ :: _ => join " " rest
  | [] => "Wallet " ++ slice_to 8 address
  end.

(** A record the summary counts: a trade with a non-empty title. *)
Definition qualifies (act : activity) : bool :=
  match act with
  | NotDict => false
  | Dict d => is_trade d && negb (get_or (Act.title d) "" =? "")
  end.

(** The mutations [fold_activity] applies to [market_buys[title]], in the
    order of the statements. *)
Definition fold_effect (address name side outcome : string) (usdc price : float)
    (m : Market.t) : Market.t :=
  let m := Market.add_wallet address m in
  let m := Market.append_wallet_name name m in
  let m := Market.add_usdc usdc m in
  let m := Market.add_trader_name name m in
  let m := if PrimFloat.ltb 0 price then Market.append_price price m else m in
  let m := if negb (outcome =? "") then Market.append_outcome outcome m else m in
  if upper side =? "BUY" then Market.incr_buy m
  else if upper side =? "SELL" then Market.incr_sell m
  else m.

(** [d[k]] for a [defaultdict] read: the value, or the default. *)
Definition dd_get {V} (default : V) (k : string) (d : dict V) : V :=
  match dict_get k d with Some v => v | None => default end.

(** The set of trader names holds each name of the name list once. *)
Definition names_agree (data : Market.t) : Prop :=
  NoDup (Market.trader_names data) /\
  forall n, In n (Market.trader_names data) <-> In n (Market.wallet_names data).

(** Alpha trades the same market twice. *)
Definition alpha_twice : world :=
  world_of (fun address =>
    if address =? alpha
    then [ trade "0x01" "BUY" "Will X happen?" "Yes" 100 0.5;
           trade "0x02" "BUY" "Will X happen?" "Yes" 200 0.75 ]
    else []).

(** Nobody has any activity. *)
Definition quiet : world := world_of (fun _ => []).

(** [st] differs from [st0] in its channel at most. *)
Definition same_but_channel (st0 st : tracker) : Prop :=
  wallets st = wallets st0 /\ seen_txs st = seen_txs st0 /\
  wallets_file st = wallets_file st0 /\ replies st = replies st0 /\
  alerts st = alerts st0.

(** Where a scan that started in [st0] stands in [st]: the alerts added so
    far are for distinct hashes that [st0] had not seen and [st] has, and
    nothing seen was forgotten. *)
Definition scan_progress (st0 st : tracker) : Prop :=
  exists new,
    alerts st = (alerts st0 ++ new)%list /\
    NoDup new /\
    (forall h, In h new -> ~ In h (seen_txs st0)) /\
    (forall h, In h new -> In h (seen_txs st)) /\
    (forall h, In h (seen_txs st0) -> In h (seen_txs st)).

(** No hash was alerted twice, and every alerted hash is still seen. *)
Definition alerts_tracked (st : tracker) : Prop :=
  NoDup (alerts st) /\ forall h, In h (alerts st) -> In h (seen_txs st).

(** The hash of the [n]-th trade of the sample runs. *)
Definition tx_hash_of (n : nat) : string := "0x" ++ str_nat n.

(** Pass [k] of a busy wallet: the API answers with trades [5k .. 5k+4]. *)
Definition busy_pass (k : nat) : world :=
  world_of (fun _ =>
    map (fun n => trade (tx_hash_of n) "BUY" "Will X happen?" "Yes" 10 0.5)
        (seq (5 * k) 5)).

(** 401 passes, 2005 distinct hashes. *)
Definition busy_run : list world := map busy_pass (seq 0 401).

(** A tracker started with one wallet in [TRACKED_WALLETS]. *)
Definition one_wallet : tracker := init alpha NoFile.

(** A trade whose [usdcSize] is the text "abc". *)
Definition malformed : activity :=
  Dict {| Act.type := Some "TRADE"; Act.transactionHash := Some "0xbad";
          Act.side := Some "BUY"; Act.title := Some "Will X happen?";
          Act.outcome := Some "Yes";
          Act.usdcSize := Some (JStr "abc" None); Act.price := Some (JNum 0.5) |}.

(** Alpha's activity starts with the malformed trade; Beta's is well formed. *)
Definition one_malformed : world :=
  world_of (fun address =>
    if address =? alpha
    then [ malformed; trade "0x02" "BUY" "Will X happen?" "Yes" 200 0.75 ]
    else [ trade "0x03" "BUY" "Will X happen?" "Yes" 40 0.5 ]).

(** The same activity without the malformed trade. *)
Definition well_formed : world :=
  world_of (fun address =>
    if address =? alpha
    then [ trade "0x02" "BUY" "Will X happen?" "Yes" 200 0.75 ]
    else [ trade "0x03" "BUY" "Will X happen?" "Yes" 40 0.5 ]).

(** ** The other commands and the dispatch of updates *)

(** [cmd_list]. *)
Definition cmd_list : M tracker unit :=
  st <- get ;;
  match wallets st with
  | [] => modify (reply "Aucun wallet surveillé")
  | _ =>
      let lines :=
        ("📋 Wallets surveillés (" ++ str_nat (List.length (wallets st)) ++ "):" ++ nl)
        :: map (fun entry : nat * (string * string) =>
                  let '(i, (addr, name)) := entry in
                  str_nat i ++ ". " ++ name ++ nl ++
                  "   " ++ slice_to 10 addr ++ "..." ++ slice_last 4 addr)
               (enumerate1 (wallets st)) in
      modify (reply (join nl lines))
  end.

(** [cmd_start]. *)
Definition cmd_start : M tracker unit :=
  modify (reply
    ("🤖 Polymarket Wallet Tracker" ++ nl ++ nl ++
     "Commandes:" ++ nl ++
     "/add 0xADRESSE nom - Ajouter un wallet" ++ nl ++
     "/remove 0xADRESSE - Supprimer un wallet" ++ nl ++
     "/list - Liste des wallets" ++ nl ++
     "/summary - Résumé immédiat" ++ nl ++
     "/help - Aide")).

(** [cmd_help]. *)
Definition cmd_help : M tracker unit :=
  modify (reply
    ("📖 Aide:" ++ nl ++ nl ++
     "➕ Ajouter un wallet:" ++ nl ++
     "/add 0xbb015bb...e5 WhaleAlpha" ++ nl ++ nl ++
     "➖ Supprimer un wallet:" ++ nl ++
     "/remove 0xbb015bb...e5" ++ nl ++ nl ++
     "📋 Voir les wallets:" ++ nl ++
     "/list" ++ nl ++ nl ++
     "📊 Résumé immédiat:" ++ nl ++
     "/summary" ++ nl ++ nl ++
     "⏰ Résumé auto toutes les " ++ str_Z SUMMARY_INTERVAL_HOURS ++ "h")).

(** The method a registered handler stands for, called with [context.args]. *)
Definition call_handler `{Runtime} (w : world) (h : handler) (args : list string)
    : M tracker unit :=
  match h with
  | CmdStart => cmd_start
  | CmdHelp => cmd_help
  | CmdAdd => cmd_add args
  | CmdRemove => cmd_remove args
  | CmdList => cmd_list
  | CmdSummary => cmd_summary w
  end.

(** What happens to a running tracker: a command arrives, or the job queue
    runs a callback.  Each comes with the answers of the outside at that
    time. *)
Inductive event :=
| Command (w : world) (h : handler) (args : list string)
| Job (w : world) (c : callback).

(** The tracker after an event; an exception that leaves a handler or a job
    is logged by the application, and the mutations made before it stay. *)
Definition after_event `{Runtime} (e : event) (st : tracker) : tracker :=
  match e with
  | Command w h args => exec (call_handler w h args) st
  | Job w c => exec (run_callback w c) st
  end.

Definition after_events `{Runtime} (es : list event) (st : tracker) : tracker :=
  fold_left (fun st e => after_event e st) es st.

(** ** Notions used to state what the passes do *)

(** The longest front of [l] whose elements all satisfy [ok]. *)
Fixpoint accepted_prefix {A} (ok : A -> bool) (l : list A) : list A :=
  match l with
  | [] => []
  | x :: r => if ok x then x :: accepted_prefix ok r else []
  end.

(** [s[n:]]. *)
Fixpoint slice_from (n : nat) (s : string) : string :=
  match n, s with
  | O, _ => s
  | S k, String _ r => slice_from k r
  | S _, EmptyString => EmptyString
  end.

(** The texts [send_telegram] passes to [bot.send_message], in order. *)
Definition outgoing (message : string) : list string :=
  if (4000 <? String.length message)%nat then chunks message else [message].

(** The transaction hashes of the TRADE records the scan fetches. *)
Definition trade_hashes (acts : list activity) : list string :=
  flat_map (fun act =>
              match act with
              | Dict d => if is_trade d then [get_or (Act.transactionHash d) ""] else []
              | NotDict => []
              end) acts.

Definition fetched_hashes (w : world) (registry : dict string) : list string :=
  flat_map (fun item => trade_hashes (get_wallet_activity w (fst item) 5)) registry.

(** The number of records of the summary fetch that qualify. *)
Definition qualifying_count (w : world) (registry : dict string) : nat :=
  list_sum (map (fun item =>
                   List.length (filter qualifies (get_wallet_activity w (fst item) 50)))
                registry).

(** The number of trades folded into the markets. *)
Definition folded_trades (mb : dict Market.t) : nat :=
  list_sum (map (fun kv => List.length (Market.wallet_names (snd kv))) mb).

(** What every market of a summary pass over [registry] satisfies. *)
Definition market_sound (registry : dict string) (data : Market.t) : Prop :=
  Market.buy_count data + Market.sell_count data <= List.length (Market.wallet_names data) /\
  List.length (Market.prices data) <= List.length (Market.wallet_names data) /\
  List.length (Market.outcomes data) <= List.length (Market.wallet_names data) /\
  NoDup (Market.wallets data) /\
  (forall a, In a (Market.wallets data) -> In a (map fst registry)) /\
  (forall n, In n (Market.wallet_names data) -> In n (map snd registry)) /\
  Forall (fun p => PrimFloat.ltb 0 p = true) (Market.prices data) /\
  ~ In "" (Market.outcomes data).

(** * Properties *)

(** ** The [/add] command *)

(** What [cmd_add] does with a first argument, in one equation: the address
    is taken in lower case without surrounding white space; it is stored,
    saved and acknowledged when it starts with [0x] and has at least 10
    characters, and otherwise only the error reply is produced. *)
Lemma cmd_add_run (arg0 : string) (rest : list string) (st : tracker) :
  let address := lower (strip arg0) in
  let name := add_name address rest in
  let stored := dict_set address name (wallets st) in
  cmd_add (arg0 :: rest) st =
    if startswith address "0x" && (10 <=? String.length address)%nat
    then ({| wallets := stored; seen_txs := seen_txs st;
             wallets_file := Saved stored; channel := channel st;
             replies := (replies st ++
                         [wallet_added name address (List.length stored)])%list;
             alerts := alerts st |}, Ok tt)
    else (reply invalid_address st, Ok tt).
Proof.
  intros address name stored.
  unfold cmd_add. fold address. fold (add_name address rest). fold name.
  destruct (startswith address "0x"); cbn [negb orb andb].
  - destruct (Nat.ltb_spec (String.length address) 10) as [Hlt | Hge];
      destruct (Nat.leb_spec 10 (String.length address)) as [Hle | Hgt];
      try lia; reflexivity.
  - reflexivity.
Qed.

(** C6 (as amended): [/add] accepts an address exactly when, once stripped
    and lower-cased, it starts with "0x" and has at least 10 characters.  An
    accepted address is stored and saved in that normalised form with a
    success reply; a rejected one gets the error reply and the registry,
    the file and everything else stay as they were. *)
Theorem cmd_add_accepts_iff_0x_and_10_chars (arg0 : string) (rest : list string) (st : tracker) :
  let address := lower (strip arg0) in
  let name := add_name address rest in
  let stored := dict_set address name (wallets st) in
  let st' := exec (cmd_add (arg0 :: rest)) st in
  if startswith address "0x" && (10 <=? String.length address)%nat
  then wallets st' = stored /\
       wallets_file st' = Saved stored /\
       replies st' = (replies st ++
                      [wallet_added name address (List.length stored)])%list
  else wallets st' = wallets st /\
       wallets_file st' = wallets_file st /\
       replies st' = (replies st ++ [invalid_address])%list.
Proof.
  intros address name stored st'. subst st'. unfold exec.
  rewrite cmd_add_run. fold address. fold name. fold stored.
  destruct (startswith address "0x" && (10 <=? String.length address)%nat);
    simpl; auto.
Qed.

(** C6, the example of the claim: "0XAb12" normalises to "0xab12", which is
    not empty and starts with "0x", and yet [/add] rejects it: nothing is
    stored and the reply is the error. *)
Lemma cmd_add_rejects_0XAb12 :
  lower (strip "0XAb12") = "0xab12" /\
  startswith "0xab12" "0x" = true /\
  wallets (exec (cmd_add ["0XAb12"]) (init "" NoFile)) = [] /\
  replies (exec (cmd_add ["0XAb12"]) (init "" NoFile)) = [invalid_address].
Proof. repeat split; reflexivity. Qed.

(** Twelve characters are enough: the address is stored in lower case. *)
Example cmd_add_stores_lowercase :
  wallets (exec (cmd_add ["0XAb12345678"; "Whale"]) (init "" NoFile))
  = [("0xab12345678", "Whale")].
Proof. reflexivity. Qed.

(** *** Dictionaries *)

Lemma dict_get_set_same {V} (k : string) (v : V) (d : dict V) :
  dict_get k (dict_set k v d) = Some v.
Proof.
  induction d as [| [k' v'] r IH]; simpl.
  - now rewrite String.eqb_refl.
  - destruct (k' =? k) eqn:E; simpl; rewrite E; auto.
Qed.

Lemma dict_get_set_other {V} (k k0 : string) (v : V) (d : dict V) :
  k0 <> k -> dict_get k0 (dict_set k v d) = dict_get k0 d.
Proof.
  intros Hne. induction d as [| [k' v'] r IH]; simpl.
  - destruct (k =? k0) eqn:E; auto.
    apply String.eqb_eq in E. congruence.
  - destruct (k' =? k) eqn:E; simpl.
    + apply String.eqb_eq in E. subst k'.
      destruct (k =? k0) eqn:E0; auto.
      apply String.eqb_eq in E0. congruence.
    + now rewrite IH.
Qed.

Lemma dict_set_keys {V} (k : string) (v : V) (d : dict V) :
  dict_contains k d = true -> map fst (dict_set k v d) = map fst d.
Proof.
  unfold dict_contains.
  induction d as [| [k' v'] r IH]; simpl.
  - discriminate.
  - destruct (k' =? k) eqn:E; simpl; intros H.
    + reflexivity.
    + now rewrite IH.
Qed.

(** C10 (as amended): [/add] with an address that passes the check of
    [cmd_add] (prefix "0x", at least 10 characters) and is already a key of
    the registry gives that key the new name, keeps the keys and their order
    (so their number), keeps the name of every other key, and replies with
    the success message. *)
Theorem cmd_add_existing_replaces_name (arg0 : string) (rest : list string) (st : tracker) :
  let address := lower (strip arg0) in
  let name := add_name address rest in
  let st' := exec (cmd_add (arg0 :: rest)) st in
  startswith address "0x" = true ->
  10 <= String.length address ->
  dict_contains address (wallets st) = true ->
  dict_get address (wallets st') = Some name /\
  (forall other, other <> address ->
     dict_get other (wallets st') = dict_get other (wallets st)) /\
  map fst (wallets st') = map fst (wallets st) /\
  List.length (wallets st') = List.length (wallets st) /\
  replies st' =
    (replies st ++ [wallet_added name address (List.length (wallets st))])%list /\
  snd (cmd_add (arg0 :: rest) st) = Ok tt.
Proof.
  intros address name st' H0x Hlen Hin. subst st'. unfold exec.
  rewrite cmd_add_run. fold address. fold name.
  rewrite H0x. apply Nat.leb_le in Hlen. rewrite Hlen. simpl.
  assert (Hkeys : map fst (dict_set address name (wallets st)) = map fst (wallets st))
    by now apply dict_set_keys.
  assert (Hn : List.length (dict_set address name (wallets st)) = List.length (wallets st)).
  { rewrite <- (length_map fst), Hkeys. apply length_map. }
  repeat split.
  - apply dict_get_set_same.
  - intros other Hne. now apply dict_get_set_other.
  - exact Hkeys.
  - exact Hn.
  - now rewrite Hn.
Qed.

Lemma cmd_add_existing_replaces_name_witness :
  dict_get alpha (wallets (exec (cmd_add [alpha; "Whale"; "A"]) two_wallets))
    = Some "Whale A" /\
  List.length (wallets (exec (cmd_add [alpha; "Whale"; "A"]) two_wallets)) = 2.
Proof.
  destruct (cmd_add_existing_replaces_name alpha ["Whale"; "A"] two_wallets)
    as (Hname & _ & _ & Hlen & _).
  - reflexivity.
  - simpl. lia.
  - reflexivity.
  - split; [exact Hname | exact Hlen].
Defined.

(** C10, as stated: an address can be in the registry and still be refused.
    [load_wallets] takes "0xab" from [TRACKED_WALLETS] (it checks the prefix
    only); [/add 0xab Whale] is then rejected for its length, so the name is
    not replaced and the reply is the error. *)
Lemma cmd_add_existing_short_address_rejected :
  dict_get "0xab" (wallets (init "0xab" NoFile)) = Some "Wallet 0xab" /\
  dict_get "0xab" (wallets (exec (cmd_add ["0xab"; "Whale"]) (init "0xab" NoFile)))
    = Some "Wallet 0xab" /\
  replies (exec (cmd_add ["0xab"; "Whale"]) (init "0xab" NoFile)) = [invalid_address].
Proof. repeat split; reflexivity. Qed.

(** ** What [run] schedules *)

(** C3 (as amended): [run] registers one repeating job, [periodic_summary],
    first due 60 seconds after start-up and then every
    [SUMMARY_INTERVAL_HOURS] hours; at every second the job queue runs that
    callback or nothing, so [periodic_check] (and with it
    [check_new_trades]) is never run by the scheduler. *)
Theorem run_schedules_summary_only (w : world) (st : tracker) :
  jobs (registered (run w st)) =
    [ {| job_callback := PeriodicSummary; interval := 3600; first := 60 |} ] /\
  (forall t : Z,
     due_callbacks (registered (run w st)) t =
       if ((60 <=? t) && ((t - 60) mod 3600 =? 0))%Z then [PeriodicSummary] else []) /\
  (forall t : Z, existsb is_check (due_callbacks (registered (run w st)) t) = false).
Proof.
  assert (Hreg : registered (run w st) =
            {| handlers :=
                 [ ("start", CmdStart); ("help", CmdHelp); ("add", CmdAdd);
                   ("remove", CmdRemove); ("list", CmdList); ("summary", CmdSummary) ];
               jobs := [ {| job_callback := PeriodicSummary;
                            interval := 3600; first := 60 |} ] |}).
  { unfold registered, run, bind, get, ret.
    destruct (send_telegram w (started (List.length (wallets st))) st) as [s' [[] | e]] eqn:E.
    - reflexivity.
    - exfalso. unfold send_telegram, try_except in E.
      match type of E with
      | (match ?m with _ => _ end) = _ => destruct m as [s1 [[] | e1]]
      end; discriminate. }
  rewrite Hreg. split; [reflexivity |]. split.
  - intros t. unfold due_callbacks, due. simpl.
    destruct ((60 <=? t) && ((t - 60) mod 3600 =? 0))%Z; reflexivity.
  - intros t. unfold due_callbacks, due. simpl.
    destruct ((60 <=? t) && ((t - 60) mod 3600 =? 0))%Z; reflexivity.
Qed.

(** C3, as stated: in a run with two wallets no registered job calls
    [periodic_check]; 30 seconds after start-up nothing is due, and at 60
    seconds only the summary is. *)
Lemma run_never_schedules_check :
  existsb (fun j => is_check (job_callback j))
          (jobs (registered (run (world_of (fun _ => [])) two_wallets))) = false /\
  due_callbacks (registered (run (world_of (fun _ => [])) two_wallets)) 30 = [] /\
  due_callbacks (registered (run (world_of (fun _ => [])) two_wallets)) 60
    = [PeriodicSummary].
Proof. repeat split; reflexivity. Qed.

(** ** The aggregation pass *)

(** *** [defaultdict] updates *)

Lemma dd_update_twice {V} (dflt : V) (k : string) (f g : V -> V) (d : dict V) :
  dd_update dflt k g (dd_update dflt k f d) = dd_update dflt k (fun v => g (f v)) d.
Proof.
  induction d as [| [k' v'] r IH]; simpl.
  - now rewrite String.eqb_refl.
  - destruct (k' =? k) eqn:E; simpl; rewrite E; [reflexivity | now rewrite IH].
Qed.

Lemma dict_get_dd_update_same {V} (dflt : V) (k : string) (f : V -> V) (d : dict V) :
  dict_get k (dd_update dflt k f d) = Some (f (dd_get dflt k d)).
Proof.
  unfold dd_get. induction d as [| [k' v'] r IH]; simpl.
  - now rewrite String.eqb_refl.
  - destruct (k' =? k) eqn:E; simpl; rewrite E; auto.
Qed.


Lemma dd_update_Forall {V} (P : V -> Prop) (dflt : V) (k : string) (f : V -> V) (d : dict V) :
  P (f dflt) -> (forall v, P v -> P (f v)) ->
  Forall (fun kv => P (snd kv)) d ->
  Forall (fun kv => P (snd kv)) (dd_update dflt k f d).
Proof.
  intros Hd Hf. induction 1 as [| [k' v'] r Hv Hr IH]; simpl.
  - constructor; auto.
  - destruct (k' =? k); constructor; simpl in *; auto.
Qed.

(** *** One record *)

(** A record that does not qualify leaves the locals as they are. *)
Lemma fold_activity_skip (address name : string) (act : activity) (s : summary_state) :
  qualifies act = false -> fold_activity address name act s = (s, Ok tt).
Proof.
  destruct act as [| d]; simpl; [reflexivity |].
  destruct (is_trade d); simpl; [| reflexivity].
  destruct (get_or (Act.title d) "" =? ""); simpl; [reflexivity | discriminate].
Qed.

(** A qualifying record whose two numbers convert: the whole effect. *)
Lemma fold_activity_run (address name : string) (d : Act.t) (s : summary_state)
    (usdc price : float) :
  is_trade d = true ->
  get_or (Act.title d) "" <> "" ->
  float_or_zero (Act.usdcSize d) = Ok usdc ->
  float_or_zero (Act.price d) = Ok price ->
  fold_activity address name (Dict d) s =
    ({| market_buys :=
          dd_update Market.default (get_or (Act.title d) "")
            (fold_effect address name (get_or (Act.side d) "")
               (get_or (Act.outcome d) "") usdc price)
            (market_buys s);
        total_trades := S (total_trades s) |}, Ok tt).
Proof.
  intros Ht Htitle Hu Hp.
  apply String.eqb_neq in Htitle.
  unfold fold_activity. rewrite Ht, Htitle, Hu, Hp.
  unfold fold_effect, on_market, bind, modify, lift, ret, count_trade.
  cbn [negb market_buys total_trades].
  destruct (PrimFloat.ltb 0 price);
    destruct (negb (get_or (Act.outcome d) "" =? ""));
    destruct (upper (get_or (Act.side d) "") =? "BUY");
    destruct (upper (get_or (Act.side d) "") =? "SELL");
    cbn [market_buys total_trades];
    rewrite ?dd_update_twice; reflexivity.
Qed.

(** A qualifying record with a number that does not convert: the trade is
    counted, no market is touched, and the exception leaves the loop. *)
Lemma fold_activity_raise (address name : string) (d : Act.t) (s : summary_state) :
  is_trade d = true ->
  get_or (Act.title d) "" <> "" ->
  (forall usdc price, float_or_zero (Act.usdcSize d) = Ok usdc ->
                      float_or_zero (Act.price d) = Ok price -> False) ->
  exists e, fold_activity address name (Dict d) s = (count_trade s, Raise e).
Proof.
  intros Ht Htitle Hbad.
  apply String.eqb_neq in Htitle.
  unfold fold_activity. rewrite Ht, Htitle.
  unfold bind, modify, lift. cbn [negb].
  destruct (float_or_zero (Act.usdcSize d)) as [usdc | e1]; [| now exists e1].
  destruct (float_or_zero (Act.price d)) as [price | e2]; [| now exists e2].
  exfalso. now apply (Hbad usdc price).
Qed.



(** *** Loops *)

(** A property every step keeps holds after the loop, however it ends. *)
Lemma for_each_keeps {S X} (P : S -> Prop) (body : X -> M S unit) (l : list X) :
  (forall x s, In x l -> P s -> P (fst (body x s))) ->
  forall s, P s -> P (fst (for_each l body s)).
Proof.
  induction l as [| x r IH]; intros Hbody s Hs; simpl.
  - exact Hs.
  - unfold bind.
    pose proof (Hbody x s (or_introl eq_refl) Hs) as Hx.
    destruct (body x s) as [s1 [[] | e]]; simpl in *.
    + apply IH; auto.
    + exact Hx.
Qed.

(** A loop of steps that each do nothing does nothing. *)
Lemma for_each_idle {S X} (body : X -> M S unit) (l : list X) (s : S) :
  (forall x, In x l -> body x s = (s, Ok tt)) ->
  for_each l body s = (s, Ok tt).
Proof.
  induction l as [| x r IH]; intros Hbody; simpl.
  - reflexivity.
  - unfold bind. rewrite (Hbody x (or_introl eq_refl)).
    apply IH. intros y Hy. apply Hbody. now right.
Qed.

(** ** The empty summary *)

(** With no qualifying record the loops leave the locals empty. *)
Lemma fold_wallets_nothing (w : world) (registry : dict string) :
  (forall address name, In (address, name) registry ->
     forallb (fun act => negb (qualifies act)) (get_wallet_activity w address 50) = true) ->
  fold_wallets w registry empty_summary = (empty_summary, Ok tt).
Proof.
  intros Hnone. unfold fold_wallets.
  apply for_each_idle. intros [address name] Hin.
  apply for_each_idle. intros act Hact.
  apply fold_activity_skip.
  pose proof (Hnone address name Hin) as Hall.
  rewrite forallb_forall in Hall.
  specialize (Hall act Hact). now apply negb_true_iff in Hall.
Qed.

(** C9: when no wallet of the registry has a qualifying record (a TRADE with
    a non-empty title) among the activities fetched for the summary,
    [generate_wallet_summary] returns the empty string, and
    [periodic_summary] then delivers nothing: the tracker, its channel
    included, is as before. *)
Theorem no_trades_no_summary `{Runtime} (w : world) (st : tracker) :
  (forall address name, In (address, name) (wallets st) ->
     forallb (fun act => negb (qualifies act)) (get_wallet_activity w address 50) = true) ->
  generate_wallet_summary w st = (st, Ok "") /\
  periodic_summary w st = (st, Ok tt) /\
  channel (exec (periodic_summary w) st) = channel st.
Proof.
  intros Hnone.
  assert (Hgen : generate_wallet_summary w st = (st, Ok "")).
  { unfold generate_wallet_summary, bind, get.
    now rewrite (fold_wallets_nothing w (wallets st) Hnone). }
  assert (Hper : periodic_summary w st = (st, Ok tt)).
  { unfold periodic_summary, try_except, bind. now rewrite Hgen. }
  split; [exact Hgen |]. split; [exact Hper |].
  unfold exec. now rewrite Hper.
Qed.

Lemma no_trades_no_summary_witness :
  @generate_wallet_summary insertion_order quiet two_wallets = (two_wallets, Ok "") /\
  channel (exec (@periodic_summary insertion_order quiet) two_wallets) = [].
Proof.
  destruct (@no_trades_no_summary insertion_order quiet two_wallets) as (Hgen & _ & Hch).
  - intros address name _. reflexivity.
  - split; [exact Hgen | exact Hch].
Defined.

(** ** The line of trader names *)

Lemma set_contains_true (x : string) (s : pyset) : set_contains x s = true <-> In x s.
Proof.
  unfold set_contains. rewrite existsb_exists. split.
  - intros (y & Hy & E). apply String.eqb_eq in E. now subst.
  - intros Hin. exists x. split; [exact Hin | apply String.eqb_refl].
Qed.

Lemma set_contains_false (x : string) (s : pyset) : set_contains x s = false <-> ~ In x s.
Proof.
  rewrite <- set_contains_true. destruct (set_contains x s); split; congruence.
Qed.

Lemma in_set_add (x y : string) (s : pyset) : In y (set_add x s) <-> y = x \/ In y s.
Proof.
  unfold set_add. destruct (set_contains x s) eqn:E.
  - apply set_contains_true in E. split; [auto |]. intros [-> | Hy]; auto.
  - rewrite in_app_iff. simpl. split.
    + intros [Hy | [-> | []]]; auto.
    + intros [-> | Hy]; auto.
Qed.

Lemma NoDup_snoc {A} (x : A) (l : list A) : NoDup l -> ~ In x l -> NoDup (l ++ [x]).
Proof.
  intros Hl Hx. apply NoDup_rev in Hl.
  rewrite <- (rev_involutive (l ++ [x])). apply NoDup_rev.
  rewrite rev_app_distr. simpl. constructor; [| exact Hl].
  now rewrite <- in_rev.
Qed.

Lemma NoDup_set_add (x : string) (s : pyset) : NoDup s -> NoDup (set_add x s).
Proof.
  intros Hs. unfold set_add. destruct (set_contains x s) eqn:E; [exact Hs |].
  apply set_contains_false in E. now apply NoDup_snoc.
Qed.

Lemma names_agree_default : names_agree Market.default.
Proof. split; [constructor | intros n; reflexivity]. Qed.

Lemma names_agree_fold_effect (address name side outcome : string) (usdc price : float)
    (m : Market.t) :
  names_agree m -> names_agree (fold_effect address name side outcome usdc price m).
Proof.
  intros [Hnd Hsame].
  assert (Hgoal : NoDup (set_add name (Market.trader_names m)) /\
                  forall n, In n (set_add name (Market.trader_names m)) <->
                            In n (Market.wallet_names m ++ [name])%list).
  { split; [now apply NoDup_set_add |].
    intros n. rewrite in_set_add, in_app_iff, Hsame. simpl. intuition congruence. }
  unfold fold_effect, names_agree.
  destruct (PrimFloat.ltb 0 price); destruct (negb (outcome =? ""));
    destruct (upper side =? "BUY"); destruct (upper side =? "SELL"); exact Hgoal.
Qed.

(** Every step of the inner loop keeps the two name collections in step. *)
Lemma fold_activity_names_agree (address name : string) (act : activity) (s : summary_state) :
  Forall (fun kv => names_agree (snd kv)) (market_buys s) ->
  Forall (fun kv => names_agree (snd kv)) (market_buys (fst (fold_activity address name act s))).
Proof.
  intros Hs.
  destruct (qualifies act) eqn:Hq.
  - destruct act as [| d]; [discriminate |]. simpl in Hq.
    apply andb_true_iff in Hq. destruct Hq as [Ht Htitle].
    apply negb_true_iff, String.eqb_neq in Htitle.
    destruct (float_or_zero (Act.usdcSize d)) as [usdc | e1] eqn:Hu.
    + destruct (float_or_zero (Act.price d)) as [price | e2] eqn:Hp.
      * rewrite (fold_activity_run address name d s usdc price Ht Htitle Hu Hp).
        cbn [fst market_buys].
        apply dd_update_Forall; [| | exact Hs].
        -- apply names_agree_fold_effect, names_agree_default.
        -- intros v. apply names_agree_fold_effect.
      * destruct (fold_activity_raise address name d s Ht Htitle) as [e ->];
          [intros u p Hu' Hp'; congruence | exact Hs].
    + destruct (fold_activity_raise address name d s Ht Htitle) as [e ->];
        [intros u p Hu' Hp'; congruence | exact Hs].
  - now rewrite fold_activity_skip.
Qed.

Lemma fold_wallets_names_agree (w : world) (registry : dict string) :
  Forall (fun kv => names_agree (snd kv))
         (market_buys (exec (fold_wallets w registry) empty_summary)).
Proof.
  unfold exec, fold_wallets.
  apply (for_each_keeps (fun s => Forall (fun kv => names_agree (snd kv)) (market_buys s))).
  - intros [address name] s _ Hs.
    apply (for_each_keeps (fun s => Forall (fun kv => names_agree (snd kv)) (market_buys s)));
      [| exact Hs].
    intros act s0 _ Hs0. now apply fold_activity_names_agree.
  - constructor.
Qed.

Lemma in_firstn {A} (n : nat) (l : list A) (x : A) : In x (firstn n l) -> In x l.
Proof.
  intros Hin. rewrite <- (firstn_skipn n l). apply in_or_app. now left.
Qed.

Lemma in_skipn {A} (n : nat) (l : list A) (x : A) : In x (skipn n l) -> In x l.
Proof.
  intros Hin. rewrite <- (firstn_skipn n l). apply in_or_app. now right.
Qed.

Lemma ranked_markets_incl (mb : dict Market.t) (x : string * Market.t) :
  In x (ranked_markets mb) -> In x mb.
Proof.
  unfold ranked_markets. intros Hin. apply in_firstn in Hin.
  revert Hin. generalize (fun x : string * Market.t => Market.buy_count (snd x)) as key.
  intros key. induction mb as [| y r IH]; simpl; [auto |].
  assert (Hins : forall l, In x (insert_desc key y l) -> x = y \/ In x l).
  { induction l as [| z l IHl]; simpl.
    - intros [<- | []]; auto.
    - destruct (key y <? key z)%nat; simpl.
      + intros [<- | Hl]; auto. destruct (IHl Hl); auto.
      + intros [<- | [<- | Hl]]; auto. }
  intros Hin. destruct (Hins _ Hin) as [-> | Hr]; auto.
Qed.

(** C8 (as amended): for every market of the ranked summary, the line of
    traders is the ", "-join of the market's set of trader names in the
    order the interpreter iterates over that set: each display name that
    was appended to the market's name list appears in it, and appears
    once, however often it was appended. *)
Theorem traders_line_lists_each_name_once `{Runtime} (w : world) (registry : dict string)
    (title : string) (data : Market.t) :
  In (title, data)
     (ranked_markets (market_buys (exec (fold_wallets w registry) empty_summary))) ->
  exists names,
    traders_line data = "   👛 " ++ join ", " names /\
    NoDup names /\
    Permutation names (Market.trader_names data) /\
    (forall n, In n names <-> In n (Market.wallet_names data)).
Proof.
  intros Hin. apply ranked_markets_incl in Hin.
  pose proof (fold_wallets_names_agree w registry) as Hall.
  rewrite Forall_forall in Hall. destruct (Hall _ Hin) as [Hnd Hsame]. simpl in *.
  exists (iter_order (Market.trader_names data)).
  pose proof (iter_order_perm (Market.trader_names data)) as Hperm.
  split; [reflexivity |]. split.
  - apply (Permutation_NoDup (Permutation_sym Hperm)). exact Hnd.
  - split; [exact Hperm |].
    intros n. rewrite <- Hsame. split; apply Permutation_in; auto using Permutation_sym.
Qed.

Lemma traders_line_lists_each_name_once_witness :
  exists names,
    @traders_line insertion_order
      {| Market.wallets := [alpha]; Market.wallet_names := ["Alpha"; "Alpha"];
         Market.buy_count := 2; Market.sell_count := 0;
         Market.total_usdc := 300%float; Market.prices := [0.5%float; 0.75%float];
         Market.outcomes := ["Yes"; "Yes"]; Market.trader_names := ["Alpha"] |}
      = "   👛 " ++ join ", " names /\
    NoDup names.
Proof.
  destruct (@traders_line_lists_each_name_once insertion_order alpha_twice
              [(alpha, "Alpha")] "Will X happen?"
              {| Market.wallets := [alpha]; Market.wallet_names := ["Alpha"; "Alpha"];
                 Market.buy_count := 2; Market.sell_count := 0;
                 Market.total_usdc := 300%float; Market.prices := [0.5%float; 0.75%float];
                 Market.outcomes := ["Yes"; "Yes"]; Market.trader_names := ["Alpha"] |})
    as (names & Hline & Hnd & _).
  - vm_compute. left. reflexivity.
  - exists names. split; [exact Hline | exact Hnd].
Defined.

(** C8, as stated: Alpha trades one market twice.  The names accumulated
    for the market, duplicates included, join to "Alpha, Alpha"; the line
    of the summary names Alpha once. *)
Lemma traders_line_drops_duplicates :
  map (fun entry =>
         (join ", " (Market.wallet_names (snd entry)),
          @traders_line insertion_order (snd entry)))
      (ranked_markets
         (market_buys (exec (fold_wallets alpha_twice [(alpha, "Alpha")]) empty_summary)))
  = [("Alpha, Alpha", "   👛 Alpha")].
Proof. vm_compute. reflexivity. Qed.

(** ** Ranking *)

Section SortedDesc.

Context {A : Type} (key : A -> nat).

Lemma insert_desc_perm (x : A) (l : list A) : Permutation (x :: l) (insert_desc key x l).
Proof.
  induction l as [| y r IH]; simpl.
  - apply Permutation_refl.
  - destruct (key x <? key y)%nat.
    + apply perm_trans with (y :: x :: r); [apply perm_swap | now apply perm_skip].
    + apply Permutation_refl.
Qed.

Lemma sorted_desc_perm (l : list A) : Permutation l (sorted_desc key l).
Proof.
  induction l as [| x r IH]; simpl.
  - apply perm_nil.
  - apply perm_trans with (x :: sorted_desc key r);
      [now apply perm_skip | apply insert_desc_perm].
Qed.

Lemma insert_desc_sorted (x : A) (l : list A) :
  StronglySorted (fun a b => key b <= key a) l ->
  StronglySorted (fun a b => key b <= key a) (insert_desc key x l).
Proof.
  induction 1 as [| y r Hr IH Hy]; simpl.
  - repeat constructor.
  - destruct (Nat.ltb_spec (key x) (key y)) as [Hlt | Hge].
    + constructor; [exact IH |].
      rewrite Forall_forall. intros z Hz.
      apply (Permutation_in _ (Permutation_sym (insert_desc_perm x r))) in Hz.
      destruct Hz as [<- | Hz]; [lia |].
      rewrite Forall_forall in Hy. now apply Hy.
    + constructor; [now constructor |].
      constructor; [exact Hge |].
      rewrite Forall_forall in *. intros z Hz. specialize (Hy z Hz). lia.
Qed.

Lemma sorted_desc_sorted (l : list A) :
  StronglySorted (fun a b => key b <= key a) (sorted_desc key l).
Proof.
  induction l as [| x r IH]; simpl; [constructor | now apply insert_desc_sorted].
Qed.

(** Insertion puts [x] in front of the elements with its own key. *)
Lemma insert_desc_filter (n : nat) (x : A) (l : list A) :
  filter (fun y => key y =? n)%nat (insert_desc key x l)
  = filter (fun y => key y =? n)%nat (x :: l).
Proof.
  induction l as [| y r IH]; [reflexivity |].
  cbn [insert_desc].
  destruct (Nat.ltb_spec (key x) (key y)) as [Hlt | Hge]; [| reflexivity].
  cbn [filter] in *. rewrite IH.
  destruct (Nat.eqb_spec (key x) n) as [Ex | Ex];
    destruct (Nat.eqb_spec (key y) n) as [Ey | Ey]; try reflexivity; lia.
Qed.

(** Stability: elements with equal keys keep their order. *)
Lemma sorted_desc_stable (n : nat) (l : list A) :
  filter (fun y => key y =? n)%nat (sorted_desc key l) = filter (fun y => key y =? n)%nat l.
Proof.
  induction l as [| x r IH]; [reflexivity |].
  cbn [sorted_desc]. rewrite insert_desc_filter. cbn [filter]. now rewrite IH.
Qed.

Lemma StronglySorted_app_cross (R : A -> A -> Prop) (l1 l2 : list A) :
  StronglySorted R (l1 ++ l2) ->
  StronglySorted R l1 /\ forall a b, In a l1 -> In b l2 -> R a b.
Proof.
  induction l1 as [| x r IH]; simpl; intros Hs.
  - split; [constructor | intros a b []].
  - inversion Hs as [| ? ? Hr Hx]; subst.
    destruct (IH Hr) as [Hr1 Hcross].
    rewrite Forall_forall in Hx. split.
    + constructor; [exact Hr1 |].
      rewrite Forall_forall. intros z Hz. apply Hx, in_or_app. now left.
    + intros a b [<- | Ha] Hb; [apply Hx, in_or_app; now right | now apply Hcross].
Qed.

End SortedDesc.

Lemma sorted_desc_length {A} (key : A -> nat) (l : list A) :
  List.length (sorted_desc key l) = List.length l.
Proof. symmetry. apply Permutation_length, sorted_desc_perm. Qed.

(** The summary lists 15 markets, or all of them when there are fewer. *)
Lemma ranked_markets_length (mb : dict Market.t) :
  List.length (ranked_markets mb) = Nat.min 15 (List.length mb).
Proof.
  unfold ranked_markets. now rewrite length_firstn, sorted_desc_length.
Qed.

(** The five lines of a market start with its number and its title. *)
Lemma market_lines_shape `{Runtime} (i : nat) (market : string) (data : Market.t) :
  exists l2 l3,
    market_lines (i, (market, data))
    = [ str_nat i ++ ". " ++ slice_to 55 market; l2; l3; traders_line data; "" ].
Proof. unfold market_lines. do 2 eexists. reflexivity. Qed.

Lemma market_blocks `{Runtime} (l : list (string * Market.t)) (k : nat) :
  List.length (flat_map market_lines (combine (seq k (List.length l)) l))
    = 5 * List.length l /\
  forall i entry,
    nth_error l i = Some entry ->
    nth_error (flat_map market_lines (combine (seq k (List.length l)) l)) (5 * i)
      = Some (str_nat (k + i) ++ ". " ++ slice_to 55 (fst entry)) /\
    nth_error (flat_map market_lines (combine (seq k (List.length l)) l)) (5 * i + 3)
      = Some (traders_line (snd entry)).
Proof.
  revert k. induction l as [| [market data] r IH]; intros k.
  - split; [reflexivity | intros [| i] entry Hnth; discriminate].
  - cbn [List.length seq combine flat_map].
    destruct (market_lines_shape k market data) as (l2 & l3 & Hshape).
    destruct (IH (S k)) as [Hlen Hnth]. rewrite Hshape. split.
    + rewrite length_app, Hlen. simpl. lia.
    + intros [| i] entry Hi.
      * injection Hi as <-. rewrite Nat.add_0_r. split; reflexivity.
      * cbn [nth_error] in Hi. destruct (Hnth i entry Hi) as [Hhead Htraders].
        replace (5 * S i) with (5 + 5 * i) by lia.
        replace (5 + 5 * i + 3) with (5 + (5 * i + 3)) by lia.
        replace (k + S i) with (S k + i) by lia.
        split; [exact Hhead | exact Htraders].
Qed.

(** C4: the markets the summary lists, [sorted_markets[:15]], are in
    descending order of [buy_count]; markets with the same [buy_count]
    stand in the order in which [market_buys] first met them; there are 15
    of them, or all markets when [market_buys] holds fewer, hence at most
    15; and they are the front of a rearrangement of [market_buys], so no
    market left out has more buys than a listed one.  The report is the
    header followed by five lines for each of these markets and for no
    other, in this order: the block of the [i]-th listed market starts with
    its number [i] and its title, and its fourth line names its traders. *)
Theorem ranked_markets_sorted_stable_at_most_15 (mb : dict Market.t) :
  let buys := fun x : string * Market.t => Market.buy_count (snd x) in
  let ranked := ranked_markets mb in
  StronglySorted (fun a b => buys b <= buys a) ranked /\
  (forall n, exists rest,
     filter (fun x => buys x =? n)%nat mb
     = (filter (fun x => buys x =? n)%nat ranked ++ rest)%list) /\
  List.length ranked = Nat.min 15 (List.length mb) /\
  List.length ranked <= 15 /\
  (exists dropped,
     Permutation mb (ranked ++ dropped) /\
     forall a b, In a ranked -> In b dropped -> buys b <= buys a) /\
  (forall (rt : Runtime) (w : world) (n_wallets total : nat),
     mb <> [] ->
     exists lines,
       render_summary w n_wallets {| market_buys := mb; total_trades := total |}
         = join nl (header_lines w n_wallets total ++ lines)%list /\
       List.length lines = 5 * Nat.min 15 (List.length mb) /\
       forall i entry,
         nth_error ranked i = Some entry ->
         nth_error lines (5 * i)
           = Some (str_nat (S i) ++ ". " ++ slice_to 55 (fst entry)) /\
         nth_error lines (5 * i + 3) = Some (traders_line (snd entry))).
Proof.
  intros buys ranked.
  pose proof (ranked_markets_length mb) as Hlen. fold ranked in Hlen.
  subst ranked. unfold ranked_markets in *. fold buys in Hlen |- *.
  pose proof (sorted_desc_sorted buys mb) as Hsorted.
  rewrite <- (firstn_skipn 15 (sorted_desc buys mb)) in Hsorted.
  apply StronglySorted_app_cross in Hsorted. destruct Hsorted as [Hfront Hcross].
  split; [exact Hfront |]. split; [| split; [exact Hlen | split; [| split]]].
  - intros n. exists (filter (fun x => buys x =? n)%nat (skipn 15 (sorted_desc buys mb))).
    rewrite <- filter_app, firstn_skipn. symmetry. apply sorted_desc_stable.
  - apply firstn_le_length.
  - exists (skipn 15 (sorted_desc buys mb)). split; [| exact Hcross].
    rewrite firstn_skipn. apply sorted_desc_perm.
  - intros rt w n_wallets total Hne.
    destruct (market_blocks (firstn 15 (sorted_desc buys mb)) 1) as [Hblocks Hnth].
    exists (flat_map market_lines (enumerate1 (firstn 15 (sorted_desc buys mb)))).
    split; [| split].
    + unfold render_summary. cbn [market_buys total_trades].
      destruct mb as [| x r]; [congruence | reflexivity].
    + unfold enumerate1. rewrite Hblocks, Hlen. reflexivity.
    + intros i entry Hi. unfold enumerate1. apply (Hnth i entry Hi).
Qed.

(** Ties keep the order of first encounter, and the highest counts lead. *)
Example ranked_markets_example :
  map fst (ranked_markets
             [ ("a", Market.incr_buy Market.default);
               ("b", Market.incr_buy (Market.incr_buy Market.default));
               ("c", Market.incr_buy Market.default);
               ("d", Market.incr_buy (Market.incr_buy Market.default));
               ("e", Market.default) ])
  = ["b"; "d"; "a"; "c"; "e"].
Proof. reflexivity. Qed.

(** ** The scan for new trades *)

Lemma try_except_swallow {S} (m : M S unit) (s : S) :
  try_except m (fun _ => ret tt) s = (fst (m s), Ok tt).
Proof.
  unfold try_except, ret. destruct (m s) as [s' [[] | e]]; reflexivity.
Qed.

Lemma for_each_ok {S X} (body : X -> M S unit) (l : list X) :
  (forall x s, snd (body x s) = Ok tt) ->
  forall s, snd (for_each l body s) = Ok tt.
Proof.
  intros Hbody. induction l as [| x r IH]; intros s; simpl.
  - reflexivity.
  - unfold bind. specialize (Hbody x s).
    destruct (body x s) as [s1 [[] | e]]; simpl in *; [apply IH | discriminate].
Qed.

Lemma same_but_channel_refl (st : tracker) : same_but_channel st st.
Proof. repeat split. Qed.

(** Sending touches the channel only, and never raises. *)
Lemma send_telegram_frame (w : world) (message : string) (st : tracker) :
  same_but_channel st (fst (send_telegram w message st)) /\
  snd (send_telegram w message st) = Ok tt.
Proof.
  unfold send_telegram. rewrite try_except_swallow. split; [| reflexivity].
  cbn [fst].
  assert (Hsend : forall text s,
            same_but_channel st s ->
            same_but_channel st
              (fst ((if bot_delivers w text then modify (deliver text)
                     else raise TelegramError) s))).
  { intros text s Hs. destruct (bot_delivers w text); [| exact Hs].
    unfold modify, deliver, same_but_channel in *. simpl. exact Hs. }
  destruct (4000 <? String.length message)%nat.
  - apply (for_each_keeps (same_but_channel st)).
    + intros text s _ Hs. now apply Hsend.
    + apply same_but_channel_refl.
  - apply Hsend, same_but_channel_refl.
Qed.

Lemma scan_progress_refl (st : tracker) : scan_progress st st.
Proof.
  exists []. rewrite app_nil_r. repeat split; auto; try constructor; intros h [].
Qed.

(** One record keeps the scan on track. *)
Lemma check_activity_progress (w : world) (name : string) (act : activity)
    (st0 st : tracker) :
  scan_progress st0 st -> scan_progress st0 (fst (check_activity w name act st)).
Proof.
  intros Hprog. destruct act as [| d]; [exact Hprog |].
  unfold check_activity.
  destruct (negb (is_trade d)); [exact Hprog |].
  unfold bind at 1. unfold get at 1.
  set (tx_hash := get_or (Act.transactionHash d) "").
  destruct (tx_hash =? ""); [exact Hprog |].
  destruct (set_contains tx_hash (seen_txs st)) eqn:Hseen; [exact Hprog |].
  cbn [orb]. apply set_contains_false in Hseen.
  destruct Hprog as (new & Halerts & Hnd & Hfresh & Hnew & Hmono).
  (* the state once the hash is marked as seen *)
  assert (Hmarked : scan_progress st0
            (with_seen_txs (set_add tx_hash (seen_txs st)) st)).
  { exists new. unfold with_seen_txs. simpl. repeat split; auto.
    - intros h Hh. apply in_set_add. right. now apply Hnew.
    - intros h Hh. apply in_set_add. right. now apply Hmono. }
  unfold bind, modify, lift.
  destruct (float_or_zero (Act.usdcSize d)) as [usdc | e1]; [| exact Hmarked].
  destruct (float_or_zero (Act.price d)) as [price | e2]; [| exact Hmarked].
  (* the alert is noted, then sent *)
  match goal with
  | |- scan_progress _ (fst (send_telegram w ?msg ?s)) =>
      destruct (send_telegram_frame w msg s) as [(Hw & Hs & _ & _ & Ha) _];
      set (st1 := fst (send_telegram w msg s)) in *
  end.
  exists (new ++ [tx_hash])%list.
  rewrite Ha, Hs. unfold note_alert, with_seen_txs. simpl.
  rewrite Halerts, app_assoc. split; [reflexivity |]. split.
  - apply NoDup_snoc; [exact Hnd |]. intros Hin. apply Hseen. now apply Hnew.
  - split; [| split].
    + intros h Hh. apply in_app_iff in Hh. destruct Hh as [Hh | [<- | []]].
      * now apply Hfresh.
      * intros Hin. apply Hseen. now apply Hmono.
    + intros h Hh. apply in_set_add. apply in_app_iff in Hh.
      destruct Hh as [Hh | [<- | []]]; [right; now apply Hnew | now left].
    + intros h Hh. apply in_set_add. right. now apply Hmono.
Qed.

Lemma check_wallet_progress (w : world) (item : string * string) (st0 st : tracker) :
  scan_progress st0 st -> scan_progress st0 (fst (check_wallet w item st)).
Proof.
  intros Hprog. destruct item as [address name]. unfold check_wallet.
  rewrite try_except_swallow. cbn [fst].
  apply (for_each_keeps (scan_progress st0)); [| exact Hprog].
  intros act s _ Hs. now apply check_activity_progress.
Qed.

Lemma check_wallet_ok (w : world) (item : string * string) (st : tracker) :
  snd (check_wallet w item st) = Ok tt.
Proof.
  destruct item as [address name]. unfold check_wallet.
  now rewrite try_except_swallow.
Qed.

Lemma scan_wallets_progress (w : world) (st : tracker) :
  scan_progress st (exec (scan_wallets w) st) /\ snd (scan_wallets w st) = Ok tt.
Proof.
  unfold exec, scan_wallets, bind, get. split.
  - apply (for_each_keeps (scan_progress st)); [| apply scan_progress_refl].
    intros item s _ Hs. now apply check_wallet_progress.
  - apply for_each_ok. intros item s. apply check_wallet_ok.
Qed.

(** The clean-up never touches the alerts, and does nothing up to 2000 hashes. *)
Lemma compact_seen_txs_alerts `{Runtime} (st : tracker) :
  alerts (exec compact_seen_txs st) = alerts st.
Proof.
  unfold exec, compact_seen_txs, bind, get, modify, ret.
  destruct (2000 <? set_len (seen_txs st))%nat; reflexivity.
Qed.

Lemma compact_seen_txs_idle `{Runtime} (st : tracker) :
  set_len (seen_txs st) <= 2000 -> exec compact_seen_txs st = st.
Proof.
  intros Hlen. unfold exec, compact_seen_txs, bind, get, modify, ret.
  destruct (Nat.ltb_spec 2000 (set_len (seen_txs st))); [lia | reflexivity].
Qed.

Lemma check_new_trades_exec `{Runtime} (w : world) (st : tracker) :
  exec (check_new_trades w) st = exec compact_seen_txs (exec (scan_wallets w) st).
Proof.
  unfold exec, check_new_trades, bind.
  destruct (scan_wallets_progress w st) as [_ Hok].
  destruct (scan_wallets w st) as [s1 [[] | e]]; simpl in *; [reflexivity | discriminate].
Qed.

(** A pass without clean-up keeps [alerts_tracked]. *)
Lemma check_new_trades_alerts_tracked `{Runtime} (w : world) (st : tracker) :
  alerts_tracked st ->
  set_len (seen_txs (exec (scan_wallets w) st)) <= 2000 ->
  alerts_tracked (exec (check_new_trades w) st).
Proof.
  intros [Hnd Hsub] Hlen.
  rewrite check_new_trades_exec, (compact_seen_txs_idle _ Hlen).
  destruct (scan_wallets_progress w st) as [(new & Ha & Hnew & Hfresh & Hin & Hmono) _].
  unfold alerts_tracked. rewrite Ha. split.
  - apply NoDup_app; auto.
    intros h H1 H2. apply (Hfresh h H2). now apply Hsub.
  - intros h Hh. apply in_app_iff in Hh. destruct Hh as [Hh | Hh]; auto.
Qed.

Lemma run_passes_alerts_tracked `{Runtime} (ws : list world) (st : tracker) :
  alerts_tracked st -> no_compaction ws st -> alerts_tracked (run_passes ws st).
Proof.
  revert st. induction ws as [| w r IH]; intros st Hst Hno; simpl in *.
  - exact Hst.
  - destruct Hno as [Hlen Hrest]. apply IH; [| exact Hrest].
    now apply check_new_trades_alerts_tracked.
Qed.

(** C1 (as amended): a pass alerts only hashes that are not in [seen_txs]
    when it starts, and each of them once; so over any run of passes of a
    freshly started tracker in which the clean-up never fires (the set
    never holds more than 2000 hashes at the end of a pass), no hash is
    alerted twice. *)
Theorem alerted_once_while_seen `{Runtime} :
  (forall (w : world) (st : tracker),
     exists new,
       alerts (exec (check_new_trades w) st) = (alerts st ++ new)%list /\
       NoDup new /\
       forall h, In h new -> set_contains h (seen_txs st) = false) /\
  (forall (tracked_wallets : string) (file : wallets_json) (ws : list world),
     no_compaction ws (init tracked_wallets file) ->
     NoDup (alerts (run_passes ws (init tracked_wallets file)))).
Proof.
  split.
  - intros w st. rewrite check_new_trades_exec, compact_seen_txs_alerts.
    destruct (scan_wallets_progress w st) as [(new & Ha & Hnew & Hfresh & _) _].
    exists new. split; [exact Ha |]. split; [exact Hnew |].
    intros h Hh. apply set_contains_false. now apply Hfresh.
  - intros tracked_wallets file ws Hno.
    apply (run_passes_alerts_tracked ws (init tracked_wallets file)); [| exact Hno].
    split; [constructor | intros h []].
Qed.

Lemma alerted_once_while_seen_witness :
  NoDup (alerts (@run_passes insertion_order [alpha_twice; alpha_twice] one_wallet)).
Proof.
  apply (proj2 (@alerted_once_while_seen insertion_order) alpha NoFile
               [alpha_twice; alpha_twice]).
  cbn [no_compaction]. repeat split; vm_compute; lia.
Defined.

(** The two passes of the witness alert each hash once. *)
Example same_feed_twice :
  alerts (@run_passes insertion_order [alpha_twice; alpha_twice] one_wallet)
  = ["0x01"; "0x02"].
Proof. vm_compute. reflexivity. Qed.

(** C1, as stated: one wallet, 401 passes with five new trades each, sets
    that iterate in insertion order.  The pass that brings the set to 2005
    hashes compacts it to the last 1000; when the API then shows the first
    trade again, it is alerted a second time. *)
Lemma evicted_hash_alerted_again :
  count_occ string_dec
    (alerts (@run_passes insertion_order (busy_run ++ [busy_pass 0]) one_wallet))
    (tx_hash_of 0) = 2.
Proof. vm_compute. reflexivity. Qed.

(** ** The clean-up of [seen_txs] *)

Lemma fold_set_add_NoDup (l acc : list string) :
  NoDup (acc ++ l) -> fold_left (fun s x => set_add x s) l acc = (acc ++ l)%list.
Proof.
  revert acc. induction l as [| x r IH]; intros acc Hnd; simpl.
  - now rewrite app_nil_r.
  - assert (Hx : set_contains x acc = false).
    { apply set_contains_false. intros Hin.
      apply NoDup_remove_2 in Hnd. apply Hnd, in_or_app. now left. }
    unfold set_add at 2. rewrite Hx.
    rewrite IH; rewrite <- app_assoc; [reflexivity | exact Hnd].
Qed.

(** [set(l)] of a list without repetition has the elements of [l], in the
    order of [l]. *)
Lemma set_of_list_NoDup (l : list string) : NoDup l -> set_of_list l = l.
Proof. intros Hnd. unfold set_of_list. now rewrite fold_set_add_NoDup. Qed.

Lemma NoDup_skipn {A} (n : nat) (l : list A) : NoDup l -> NoDup (skipn n l).
Proof.
  intros Hnd. rewrite <- (firstn_skipn n l) in Hnd.
  now apply NoDup_app_remove_l in Hnd.
Qed.

(** What the clean-up leaves when it fires: the last 1000 hashes of the
    order in which the interpreter iterates over the set. *)
Lemma compact_seen_txs_fires `{Runtime} (st : tracker) :
  NoDup (seen_txs st) ->
  2000 < set_len (seen_txs st) ->
  seen_txs (exec compact_seen_txs st) = last_n 1000 (iter_order (seen_txs st)) /\
  set_len (seen_txs (exec compact_seen_txs st)) = 1000 /\
  NoDup (seen_txs (exec compact_seen_txs st)) /\
  (forall h, In h (seen_txs (exec compact_seen_txs st)) -> In h (seen_txs st)).
Proof.
  intros Hnd Hlen.
  pose proof (iter_order_perm (seen_txs st)) as Hperm.
  assert (Hnd' : NoDup (last_n 1000 (iter_order (seen_txs st)))).
  { apply NoDup_skipn. apply (Permutation_NoDup (Permutation_sym Hperm)). exact Hnd. }
  assert (Hseen : seen_txs (exec compact_seen_txs st)
                  = last_n 1000 (iter_order (seen_txs st))).
  { unfold exec, compact_seen_txs, bind, get, modify.
    destruct (Nat.ltb_spec 2000 (set_len (seen_txs st))); [| lia].
    cbn [fst seen_txs with_seen_txs]. now apply set_of_list_NoDup. }
  rewrite Hseen. split; [reflexivity |]. split; [| split].
  - unfold set_len, last_n in *. rewrite length_skipn.
    rewrite (Permutation_length Hperm). lia.
  - exact Hnd'.
  - intros h Hh. apply in_skipn in Hh. now apply (Permutation_in _ Hperm).
Qed.

(** C2, evaluated: one wallet, 401 passes with five new trades each, on an
    interpreter whose sets iterate from the newest element to the oldest.
    The clean-up of the last pass leaves exactly 1000 hashes, and they are
    the 1000 oldest: every one of the 1005 hashes added after them, the
    1000 most recently added included, is gone. *)
Theorem compaction_may_keep_the_oldest :
  let seen := seen_txs (@run_passes newest_first busy_run one_wallet) in
  set_len seen = 1000 /\
  forallb (fun n => set_contains (tx_hash_of n) seen) (seq 0 1000) = true /\
  forallb (fun n => negb (set_contains (tx_hash_of n) seen)) (seq 1000 1005) = true.
Proof. vm_compute. repeat split; reflexivity. Qed.

(** ** Malformed records *)

(** A record without numbers counts as zero: absent keys, [null] and empty
    text all convert to [0.0]. *)
Lemma float_or_zero_defaults :
  float_or_zero None = Ok 0%float /\
  float_or_zero (Some JNull) = Ok 0%float /\
  float_or_zero (Some (JStr "" None)) = Ok 0%float.
Proof. repeat split; reflexivity. Qed.

(** C7, evaluated: Alpha's activity starts with a trade whose [usdcSize] is
    the text "abc".  [float] raises on it.  In the summary nothing catches
    the exception before [periodic_summary]: the pass ends without a
    report, although both wallets have well-formed trades (without the
    malformed record one report is delivered).  In the scan the exception
    ends Alpha's loop: the malformed trade is marked as seen but not
    alerted, Alpha's next trade "0x02" is not looked at, and the scan goes
    on with Beta. *)
Theorem malformed_record_aborts_summary :
  snd (@generate_wallet_summary insertion_order one_malformed two_wallets)
    = Raise ValueError /\
  channel (exec (@periodic_summary insertion_order one_malformed) two_wallets) = [] /\
  List.length (channel (exec (@periodic_summary insertion_order well_formed) two_wallets))
    = 1 /\
  alerts (exec (@check_new_trades insertion_order one_malformed) two_wallets)
    = ["0x03"] /\
  seen_txs (exec (@check_new_trades insertion_order one_malformed) two_wallets)
    = ["0xbad"; "0x03"] /\
  alerts (exec (@check_new_trades insertion_order well_formed) two_wallets)
    = ["0x02"; "0x03"].
Proof. vm_compute. repeat split; reflexivity. Qed.

(** C5, evaluated at a record the claim covers: a TRADE with a title whose
    [usdcSize] is the text "abc".  The trade is counted, then [float]
    raises: no market is created for the title, so the address, the name,
    the price, the outcome and the buy are all missing from the aggregate,
    and the exception leaves the loop.  The same record with an empty
    [usdcSize], which [or 0] does default, is folded in full with a volume
    of zero. *)
Theorem malformed_record_counted_but_not_folded :
  fold_activity alpha "Alpha" malformed empty_summary
    = ({| market_buys := []; total_trades := 1 |}, Raise ValueError) /\
  fold_activity alpha "Alpha"
    (Dict {| Act.type := Some "TRADE"; Act.transactionHash := Some "0xbad";
             Act.side := Some "BUY"; Act.title := Some "Will X happen?";
             Act.outcome := Some "Yes";
             Act.usdcSize := Some (JStr "" None); Act.price := Some (JNum 0.5) |})
    empty_summary
    = ({| market_buys :=
            [("Will X happen?",
              {| Market.wallets := [alpha]; Market.wallet_names := ["Alpha"];
                 Market.buy_count := 1; Market.sell_count := 0;
                 Market.total_usdc := 0%float; Market.prices := [0.5%float];
                 Market.outcomes := ["Yes"]; Market.trader_names := ["Alpha"] |})];
          total_trades := 1 |}, Ok tt).
Proof. vm_compute. split; reflexivity. Qed.

(** ** Further facts about the two passes *)

Lemma check_activity_seen_NoDup (w : world) (name : string) (act : activity) (st : tracker) :
  NoDup (seen_txs st) -> NoDup (seen_txs (fst (check_activity w name act st))).
Proof.
  intros Hnd. destruct act as [| d]; [exact Hnd |].
  unfold check_activity.
  destruct (negb (is_trade d)); [exact Hnd |].
  unfold bind at 1. unfold get at 1.
  set (tx_hash := get_or (Act.transactionHash d) "").
  destruct ((tx_hash =? "") || set_contains tx_hash (seen_txs st)); [exact Hnd |].
  assert (Hmarked : NoDup (set_add tx_hash (seen_txs st))) by now apply NoDup_set_add.
  unfold bind, modify, lift.
  destruct (float_or_zero (Act.usdcSize d)) as [usdc | e1]; [| exact Hmarked].
  destruct (float_or_zero (Act.price d)) as [price | e2]; [| exact Hmarked].
  match goal with
  | |- NoDup (seen_txs (fst (send_telegram w ?msg ?s))) =>
      destruct (send_telegram_frame w msg s) as [(_ & Hs & _) _]; rewrite Hs
  end.
  exact Hmarked.
Qed.

Lemma scan_wallets_seen_NoDup (w : world) (st : tracker) :
  NoDup (seen_txs st) -> NoDup (seen_txs (exec (scan_wallets w) st)).
Proof.
  intros Hnd. unfold exec, scan_wallets, bind, get.
  apply (for_each_keeps (fun s => NoDup (seen_txs s))); [| exact Hnd].
  intros [address name] s _ Hs. unfold check_wallet.
  rewrite try_except_swallow. cbn [fst].
  apply (for_each_keeps (fun s => NoDup (seen_txs s))); [| exact Hs].
  intros act s0 _ Hs0. now apply check_activity_seen_NoDup.
Qed.

(** A pass ends with at most 2000 hashes, none repeated. *)
Lemma check_new_trades_bounded `{Runtime} (w : world) (st : tracker) :
  NoDup (seen_txs st) ->
  NoDup (seen_txs (exec (check_new_trades w) st)) /\
  set_len (seen_txs (exec (check_new_trades w) st)) <= 2000.
Proof.
  intros Hnd. rewrite check_new_trades_exec.
  pose proof (scan_wallets_seen_NoDup w st Hnd) as Hscan.
  destruct (Nat.le_gt_cases (set_len (seen_txs (exec (scan_wallets w) st))) 2000)
    as [Hle | Hgt].
  - rewrite (compact_seen_txs_idle _ Hle). auto.
  - destruct (compact_seen_txs_fires _ Hscan Hgt) as (_ & Hlen & Hnd' & _).
    split; [exact Hnd' | lia].
Qed.

Lemma run_passes_bounded `{Runtime} (ws : list world) (st : tracker) :
  NoDup (seen_txs st) -> set_len (seen_txs st) <= 2000 ->
  NoDup (seen_txs (run_passes ws st)) /\ set_len (seen_txs (run_passes ws st)) <= 2000.
Proof.
  revert st. induction ws as [| w r IH]; intros st Hnd Hlen; simpl.
  - auto.
  - destruct (check_new_trades_bounded w st Hnd) as [Hnd' Hlen']. now apply IH.
Qed.

(** X1: memory for the seen hashes is bounded.  After any number of passes
    of a freshly started tracker, [seen_txs] holds at most 2000 hashes. *)
Theorem seen_txs_never_above_2000 `{Runtime} (tracked_wallets : string)
    (file : wallets_json) (ws : list world) :
  set_len (seen_txs (run_passes ws (init tracked_wallets file))) <= 2000.
Proof.
  apply run_passes_bounded; simpl; [constructor | lia].
Qed.

(** X2: the size after a clean-up.  In every pass of a run that started
    fresh: when the scan leaves more than 2000 hashes, the pass ends with
    exactly 1000 of them, namely the last 1000 in the interpreter's
    iteration order of the set; otherwise the set is left as the scan made
    it. *)
Theorem compaction_leaves_exactly_1000 `{Runtime} (tracked_wallets : string)
    (file : wallets_json) (ws : list world) (w : world) :
  let scanned := exec (scan_wallets w) (run_passes ws (init tracked_wallets file)) in
  let done := exec (check_new_trades w) (run_passes ws (init tracked_wallets file)) in
  if (2000 <? set_len (seen_txs scanned))%nat
  then set_len (seen_txs done) = 1000 /\
       seen_txs done = last_n 1000 (iter_order (seen_txs scanned)) /\
       (forall h, In h (seen_txs done) -> In h (seen_txs scanned))
  else seen_txs done = seen_txs scanned.
Proof.
  intros scanned done. subst scanned done.
  rewrite check_new_trades_exec.
  set (st := run_passes ws (init tracked_wallets file)).
  assert (Hnd : NoDup (seen_txs (exec (scan_wallets w) st))).
  { apply scan_wallets_seen_NoDup. subst st.
    apply run_passes_bounded; simpl; [constructor | lia]. }
  destruct (Nat.ltb_spec 2000 (set_len (seen_txs (exec (scan_wallets w) st))))
    as [Hgt | Hle].
  - destruct (compact_seen_txs_fires _ Hnd Hgt) as (Hseen & Hlen & _ & Hsub). auto.
  - now rewrite (compact_seen_txs_idle _ Hle).
Qed.

(** X3: failures stay local in the scan.  [check_new_trades] never raises;
    whatever happens while one wallet is processed, the loop goes on with
    the next wallet from the state that wallet left. *)
Theorem check_new_trades_never_raises `{Runtime} (w : world) (st : tracker) :
  snd (check_new_trades w st) = Ok tt /\
  (forall item rest s,
     for_each (item :: rest) (check_wallet w) s
     = for_each rest (check_wallet w) (fst (check_wallet w item s))).
Proof.
  split.
  - unfold check_new_trades, bind.
    destruct (scan_wallets_progress w st) as [_ Hok].
    destruct (scan_wallets w st) as [s1 [[] | e]]; simpl in *; [| discriminate].
    unfold compact_seen_txs, bind, get, modify, ret.
    destruct (2000 <? set_len (seen_txs s1))%nat; reflexivity.
  - intros item rest s. simpl. unfold bind.
    pose proof (check_wallet_ok w item s) as Hok.
    destruct (check_wallet w item s) as [s1 [[] | e]]; simpl in *;
      [reflexivity | discriminate].
Qed.

(** X4: transport and delivery failures.  A request that fails, answers
    with another status than 200 or with a body that is not JSON yields no
    records; and [send_telegram] never raises and changes nothing but the
    channel, also when the bot refuses the message. *)
Theorem transport_and_delivery_failures_are_absorbed (w : world) (wallet : string)
    (limit : nat) (message : string) (st : tracker) :
  match http_activity w wallet limit with
  | Http status (Some records) =>
      get_wallet_activity w wallet limit = if (status =? 200)%Z then records else []
  | _ => get_wallet_activity w wallet limit = []
  end /\
  snd (send_telegram w message st) = Ok tt /\
  same_but_channel st (fst (send_telegram w message st)).
Proof.
  split.
  - unfold get_wallet_activity.
    destruct (http_activity w wallet limit) as [| status [records |]]; reflexivity.
  - destruct (send_telegram_frame w message st) as [Hframe Hok]. auto.
Qed.


(** ** The registry *)

Lemma dict_get_None {V} (k : string) (d : dict V) :
  dict_get k d = None <-> ~ In k (map fst d).
Proof.
  induction d as [| [k' v'] r IH]; simpl.
  - tauto.
  - destruct (k' =? k) eqn:E.
    + apply String.eqb_eq in E. split; [discriminate | intros H; exfalso; auto].
    + apply String.eqb_neq in E. rewrite IH. tauto.
Qed.

Lemma dict_set_fresh {V} (k : string) (v : V) (d : dict V) :
  ~ In k (map fst d) -> dict_set k v d = (d ++ [(k, v)])%list.
Proof.
  induction d as [| [k' v'] r IH]; simpl; intros Hk; [reflexivity |].
  destruct (k' =? k) eqn:E.
  - apply String.eqb_eq in E. exfalso. auto.
  - rewrite IH; auto.
Qed.

Lemma in_dict_set_keys {V} (k k0 : string) (v : V) (d : dict V) :
  In k0 (map fst (dict_set k v d)) <-> k0 = k \/ In k0 (map fst d).
Proof.
  induction d as [| [k' v'] r IH]; simpl.
  - intuition.
  - destruct (k' =? k) eqn:E; simpl.
    + apply String.eqb_eq in E. subst. intuition.
    + rewrite IH. intuition.
Qed.

Lemma dict_set_NoDup {V} (k : string) (v : V) (d : dict V) :
  NoDup (map fst d) -> NoDup (map fst (dict_set k v d)).
Proof.
  induction d as [| [k' v'] r IH]; simpl; intros Hnd.
  - repeat constructor. intros [].
  - inversion Hnd as [| ? ? Hk Hr]; subst.
    destruct (k' =? k) eqn:E; simpl.
    + now constructor.
    + constructor; [| now apply IH].
      rewrite in_dict_set_keys. intros [-> | Hin]; [| contradiction].
      now rewrite String.eqb_refl in E.
Qed.

Lemma in_dict_pop_keys {V} (k k0 : string) (d : dict V) :
  In k0 (map fst (dict_pop k d)) -> In k0 (map fst d).
Proof.
  induction d as [| [k' v'] r IH]; simpl; [auto |].
  destruct (k' =? k); simpl; intuition.
Qed.

Lemma dict_pop_NoDup {V} (k : string) (d : dict V) :
  NoDup (map fst d) -> NoDup (map fst (dict_pop k d)).
Proof.
  induction d as [| [k' v'] r IH]; simpl; intros Hnd; [constructor |].
  inversion Hnd as [| ? ? Hk Hr]; subst.
  destruct (k' =? k); simpl; [exact Hr |].
  constructor; [| now apply IH].
  intros Hin. apply Hk. now apply in_dict_pop_keys in Hin.
Qed.

Lemma dict_get_pop_same {V} (k : string) (d : dict V) :
  NoDup (map fst d) -> dict_get k (dict_pop k d) = None.
Proof.
  induction d as [| [k' v'] r IH]; simpl; intros Hnd; [reflexivity |].
  inversion Hnd as [| ? ? Hk Hr]; subst.
  destruct (k' =? k) eqn:E; simpl.
  - apply String.eqb_eq in E. subst. now apply dict_get_None.
  - rewrite E. now apply IH.
Qed.

Lemma dict_get_pop_other {V} (k k0 : string) (d : dict V) :
  k0 <> k -> dict_get k0 (dict_pop k d) = dict_get k0 d.
Proof.
  intros Hne. induction d as [| [k' v'] r IH]; simpl; [reflexivity |].
  destruct (k' =? k) eqn:E; simpl.
  - apply String.eqb_eq in E. subst k'.
    destruct (k =? k0) eqn:E0; [| reflexivity].
    apply String.eqb_eq in E0. congruence.
  - now rewrite IH.
Qed.

Lemma dict_pop_length {V} (k : string) (d : dict V) :
  dict_contains k d = true -> S (List.length (dict_pop k d)) = List.length d.
Proof.
  unfold dict_contains.
  induction d as [| [k' v'] r IH]; simpl; [discriminate |].
  destruct (k' =? k); simpl; intros H; [reflexivity | now rewrite IH].
Qed.

Lemma dict_pop_set_fresh {V} (k : string) (v : V) (d : dict V) :
  dict_get k d = None -> dict_pop k (dict_set k v d) = d.
Proof.
  induction d as [| [k' v'] r IH]; simpl.
  - now rewrite String.eqb_refl.
  - destruct (k' =? k) eqn:E; [discriminate |]. simpl. rewrite E.
    intros H. now rewrite IH.
Qed.

Lemma dict_update_NoDup {V} (d other : dict V) :
  NoDup (map fst d) -> NoDup (map fst (dict_update d other)).
Proof.
  unfold dict_update. revert d.
  induction other as [| [k v] r IH]; intros d Hnd; simpl; [exact Hnd |].
  apply IH. now apply dict_set_NoDup.
Qed.

Lemma dict_get_update {V} (k : string) (d other : dict V) :
  NoDup (map fst other) ->
  dict_get k (dict_update d other) =
    match dict_get k other with Some v => Some v | None => dict_get k d end.
Proof.
  unfold dict_update. revert d.
  induction other as [| [k1 v1] r IH]; intros d Hnd; simpl; [reflexivity |].
  inversion Hnd as [| ? ? Hk Hr]; subst. rewrite (IH _ Hr).
  destruct (k1 =? k) eqn:E.
  - apply String.eqb_eq in E. subst k1.
    apply dict_get_None in Hk. rewrite Hk. apply dict_get_set_same.
  - apply String.eqb_neq in E.
    destruct (dict_get k r); [reflexivity |].
    apply dict_get_set_other. congruence.
Qed.

(** Reading back a saved registry over nothing gives the registry. *)
Lemma dict_update_nil {V} (acc d : dict V) :
  NoDup (map fst (acc ++ d)) ->
  fold_left (fun a kv => dict_set (fst kv) (snd kv) a) d acc = (acc ++ d)%list.
Proof.
  revert acc. induction d as [| [k v] r IH]; intros acc Hnd; simpl.
  - now rewrite app_nil_r.
  - rewrite dict_set_fresh.
    + rewrite IH; rewrite <- app_assoc; [reflexivity | exact Hnd].
    + rewrite map_app in Hnd. simpl in Hnd. apply NoDup_remove_2 in Hnd.
      intros Hin. apply Hnd, in_or_app. now left.
Qed.

Lemma lower_char_idem (c : ascii) : lower_char (lower_char c) = lower_char c.
Proof. destruct c as [[] [] [] [] [] [] [] []]; reflexivity. Qed.

Lemma lower_idem (s : string) : lower (lower s) = lower s.
Proof.
  unfold lower. induction s as [| c r IH]; simpl; [reflexivity |].
  now rewrite lower_char_idem, IH.
Qed.


Lemma dict_update_keeps_keys {V} (k : string) (d other : dict V) :
  In k (map fst d) -> In k (map fst (dict_update d other)).
Proof.
  unfold dict_update. revert d.
  induction other as [| [k1 v1] r IH]; intros d Hin; simpl; [exact Hin |].
  apply IH. apply in_dict_set_keys. now right.
Qed.

Lemma dict_set_Forall {V} (P : string * V -> Prop) (k : string) (v : V) (d : dict V) :
  P (k, v) -> Forall P d -> Forall P (dict_set k v d).
Proof.
  intros Hkv. induction 1 as [| [k' v'] r Hx Hr IH]; simpl.
  - repeat constructor. exact Hkv.
  - destruct (k' =? k) eqn:E.
    + apply String.eqb_eq in E. subst k'. now constructor.
    + now constructor.
Qed.

(** The registry [load_wallets] builds from [TRACKED_WALLETS] alone: each
    address once, accepted by the test of the loop and named after it. *)
Lemma load_wallets_env (tracked_wallets : string) :
  let seeds := load_wallets tracked_wallets NoFile in
  NoDup (map fst seeds) /\
  Forall (fun kv => startswith (fst kv) "0x" = true /\
                    lower (fst kv) = fst kv /\
                    snd kv = "Wallet " ++ slice_to 8 (fst kv)) seeds.
Proof.
  intros seeds. subst seeds. unfold load_wallets.
  set (step := fun (wallets : dict string) (w : string) =>
                 if startswith (lower (strip w)) "0x"
                 then dict_set (lower (strip w))
                        ("Wallet " ++ slice_to 8 (lower (strip w))) wallets
                 else wallets).
  set (P := fun kv : string * string =>
              startswith (fst kv) "0x" = true /\
              lower (fst kv) = fst kv /\
              snd kv = "Wallet " ++ slice_to 8 (fst kv)).
  assert (Hstep : forall acc w,
            NoDup (map fst acc) /\ Forall P acc ->
            NoDup (map fst (step acc w)) /\ Forall P (step acc w)).
  { intros acc w [Hnd Hall]. unfold step.
    destruct (startswith (lower (strip w)) "0x") eqn:E; [| auto].
    split; [now apply dict_set_NoDup |].
    apply dict_set_Forall; [| exact Hall].
    unfold P. simpl. now rewrite lower_idem. }
  assert (Hinv : forall raw acc,
            NoDup (map fst acc) /\ Forall P acc ->
            NoDup (map fst (fold_left step raw acc)) /\ Forall P (fold_left step raw acc)).
  { induction raw as [| w r IH]; intros acc Hacc; simpl; [exact Hacc |].
    apply IH. now apply Hstep. }
  apply Hinv. split; constructor.
Qed.

(** The addresses of that registry are the tokens of [TRACKED_WALLETS]
    that pass the test of the loop, no more and no fewer. *)
Lemma load_wallets_env_keys (tracked_wallets address : string) :
  In address (map fst (load_wallets tracked_wallets NoFile)) <->
  exists w, In w (split (replace_char "," " " tracked_wallets)) /\
            address = lower (strip w) /\ startswith address "0x" = true.
Proof.
  unfold load_wallets.
  set (step := fun (wallets : dict string) (w : string) =>
                 if startswith (lower (strip w)) "0x"
                 then dict_set (lower (strip w))
                        ("Wallet " ++ slice_to 8 (lower (strip w))) wallets
                 else wallets).
  assert (Hgen : forall raw acc,
            In address (map fst (fold_left step raw acc)) <->
            In address (map fst acc) \/
            exists w, In w raw /\ address = lower (strip w) /\
                      startswith address "0x" = true).
  { induction raw as [| w r IH]; intros acc; cbn [fold_left].
    - split; [now left | intros [Hin | (w & [] & _)]; exact Hin].
    - rewrite IH. unfold step.
      destruct (startswith (lower (strip w)) "0x") eqn:E.
      + rewrite in_dict_set_keys. split.
        * intros [[Heq | Hin] | (w' & Hw' & Hrest)].
          -- right. exists w. subst address. repeat split; [now left | exact E].
          -- now left.
          -- right. exists w'. split; [now right | exact Hrest].
        * intros [Hin | (w' & [Heq | Hw'] & Ha & H0x)].
          -- left. now right.
          -- subst w'. left. now left.
          -- right. exists w'. auto.
      + split.
        * intros [Hin | (w' & Hw' & Hrest)]; [now left |].
          right. exists w'. split; [now right | exact Hrest].
        * intros [Hin | (w' & [Heq | Hw'] & Ha & H0x)]; [now left | |].
          -- subst w' address. congruence.
          -- right. exists w'. auto. }
  rewrite Hgen. cbn [map]. split; [intros [[] | Hex]; exact Hex | now right].
Qed.

(** X5: the wallets of [TRACKED_WALLETS].  Its tokens are the pieces between
    commas and white space.  Without a file, or with one that cannot be
    opened or parsed, the registry [load_wallets] returns holds exactly the
    tokens that start with "0x" once stripped and lower-cased: each such
    address once, in that form, named "Wallet " followed by its first 8
    characters, and no other address.  Whatever the file holds, every one of
    these addresses is in the registry after loading: the file can rename a
    wallet of [TRACKED_WALLETS], not remove it. *)
Theorem load_wallets_seeds (tracked_wallets : string) :
  let tokens := split (replace_char "," " " tracked_wallets) in
  let seeds := load_wallets tracked_wallets NoFile in
  load_wallets tracked_wallets Unreadable = seeds /\
  NoDup (map fst seeds) /\
  (forall address,
     In address (map fst seeds) <->
     exists w, In w tokens /\ address = lower (strip w) /\
               startswith address "0x" = true) /\
  (forall address name,
     In (address, name) seeds -> name = "Wallet " ++ slice_to 8 address) /\
  (forall file w,
     In w tokens -> startswith (lower (strip w)) "0x" = true ->
     In (lower (strip w)) (map fst (load_wallets tracked_wallets file))).
Proof.
  intros tokens seeds. subst tokens seeds.
  destruct (load_wallets_env tracked_wallets) as [Hnd Hall].
  split; [reflexivity |]. split; [exact Hnd |].
  split; [intros address; apply load_wallets_env_keys |]. split.
  - intros address name Hin. rewrite Forall_forall in Hall.
    destruct (Hall _ Hin) as (_ & _ & Hname). exact Hname.
  - intros file w Hw H0x.
    assert (Hseed : In (lower (strip w))
                      (map fst (load_wallets tracked_wallets NoFile))).
    { apply load_wallets_env_keys. exists w. auto. }
    destruct file as [| | inserted | saved]; try exact Hseed;
      unfold load_wallets in *; now apply dict_update_keeps_keys.
Qed.

(** X6: the file over the environment.  With a saved registry (a JSON
    object, so with distinct keys), [load_wallets] gives every address of
    the file the name saved for it, and every other address what
    [TRACKED_WALLETS] alone gives. *)
Theorem load_wallets_file_overrides (tracked_wallets : string) (saved : dict string)
    (address : string) :
  NoDup (map fst saved) ->
  dict_get address (load_wallets tracked_wallets (Saved saved)) =
    match dict_get address saved with
    | Some name => Some name
    | None => dict_get address (load_wallets tracked_wallets NoFile)
    end.
Proof.
  intros Hnd. unfold load_wallets. now apply dict_get_update.
Qed.

Lemma load_wallets_file_overrides_witness :
  dict_get alpha (load_wallets (alpha ++ "," ++ beta) (Saved [(alpha, "Whale")]))
    = Some "Whale" /\
  dict_get beta (load_wallets (alpha ++ "," ++ beta) (Saved [(alpha, "Whale")]))
    = Some "Wallet 0xbbbbbb".
Proof.
  split.
  - rewrite (load_wallets_file_overrides (alpha ++ "," ++ beta) [(alpha, "Whale")] alpha).
    + reflexivity.
    + repeat constructor. simpl. tauto.
  - rewrite (load_wallets_file_overrides (alpha ++ "," ++ beta) [(alpha, "Whale")] beta).
    + reflexivity.
    + repeat constructor. simpl. tauto.
Defined.

(** What [cmd_remove] does with a first argument, in one equation. *)
Lemma cmd_remove_run (arg0 : string) (rest : list string) (st : tracker) :
  let address := lower (strip arg0) in
  cmd_remove (arg0 :: rest) st =
    match dict_get address (wallets st) with
    | Some name =>
        ({| wallets := dict_pop address (wallets st); seen_txs := seen_txs st;
            wallets_file := Saved (dict_pop address (wallets st));
            channel := channel st;
            replies := (replies st ++ [("✅ Wallet supprimé: " ++ name)%string])%list;
            alerts := alerts st |}, Ok tt)
    | None => (reply "❌ Wallet non trouvé" st, Ok tt)
    end.
Proof.
  intros address. unfold cmd_remove. fold address.
  unfold bind at 1. unfold get at 1.
  destruct (dict_get address (wallets st)) as [name |]; reflexivity.
Qed.

(** X7: [/remove] with an address that is in the registry (after stripping
    and lower-casing) drops that entry and only that one, saves the
    registry and replies with the removed wallet's name; with any other
    address it replies that the wallet was not found and changes nothing
    else. *)
Theorem cmd_remove_drops_only_that_wallet (arg0 : string) (rest : list string)
    (st : tracker) :
  let address := lower (strip arg0) in
  let st' := exec (cmd_remove (arg0 :: rest)) st in
  match dict_get address (wallets st) with
  | Some name =>
      (NoDup (map fst (wallets st)) -> dict_get address (wallets st') = None) /\
      (forall other, other <> address ->
         dict_get other (wallets st') = dict_get other (wallets st)) /\
      S (List.length (wallets st')) = List.length (wallets st) /\
      wallets_file st' = Saved (wallets st') /\
      replies st' = (replies st ++ [("✅ Wallet supprimé: " ++ name)%string])%list
  | None => st' = reply "❌ Wallet non trouvé" st
  end.
Proof.
  intros address st'. subst st'. unfold exec. rewrite cmd_remove_run. fold address.
  destruct (dict_get address (wallets st)) as [name |] eqn:Hget; [| reflexivity].
  cbn [fst wallets wallets_file replies].
  split; [intros Hnd; now apply dict_get_pop_same |].
  split; [intros other Hne; now apply dict_get_pop_other |].
  split; [| split; reflexivity].
  apply dict_pop_length. unfold dict_contains. now rewrite Hget.
Qed.

(** X8: [/add] undone by [/remove].  When the address passes the check of
    [cmd_add] and is not yet in the registry, adding it and then removing
    it gives back the registry as it was, entry for entry. *)
Theorem cmd_add_then_remove (arg0 : string) (rest : list string) (st : tracker) :
  let address := lower (strip arg0) in
  startswith address "0x" = true ->
  10 <= String.length address ->
  dict_get address (wallets st) = None ->
  wallets (exec (cmd_remove [arg0]) (exec (cmd_add (arg0 :: rest)) st)) = wallets st.
Proof.
  intros address H0x Hlen Hnew. unfold exec.
  rewrite cmd_add_run. fold address. rewrite H0x.
  apply Nat.leb_le in Hlen. rewrite Hlen. cbn [andb fst].
  rewrite cmd_remove_run. fold address. cbn [wallets].
  rewrite dict_get_set_same. cbn [fst wallets].
  now apply dict_pop_set_fresh.
Qed.

Lemma cmd_add_then_remove_witness :
  wallets (exec (cmd_remove ["0xCCCCCCCCCCCC"])
             (exec (cmd_add ["0xCCCCCCCCCCCC"; "Gamma"]) two_wallets))
  = wallets two_wallets.
Proof.
  apply (cmd_add_then_remove "0xCCCCCCCCCCCC" ["Gamma"] two_wallets).
  - reflexivity.
  - simpl. lia.
  - reflexivity.
Defined.


(** *** What leaves the registry alone *)

Lemma generate_wallet_summary_pure `{Runtime} (w : world) (st : tracker) :
  fst (generate_wallet_summary w st) = st.
Proof.
  unfold generate_wallet_summary, bind, get, ret, raise.
  destruct (fold_wallets w (wallets st) empty_summary) as [s [[] | e]]; reflexivity.
Qed.

(** A property of the tracker that delivering a text, marking a hash and
    noting an alert keep is kept by sending, by one record of the scan and
    by the whole pass. *)
Lemma send_telegram_keeps (P : tracker -> Prop) (w : world) (message : string)
    (st : tracker) :
  (forall s text, P s -> P (deliver text s)) ->
  P st -> P (fst (send_telegram w message st)).
Proof.
  intros Hdeliver Hst. unfold send_telegram. rewrite try_except_swallow. cbn [fst].
  assert (Hsend : forall text s,
            P s ->
            P (fst ((if bot_delivers w text then modify (deliver text)
                     else raise TelegramError) s))).
  { intros text s Hs. destruct (bot_delivers w text); [| exact Hs].
    now apply Hdeliver. }
  destruct (4000 <? String.length message)%nat.
  - apply (for_each_keeps P); [| exact Hst].
    intros text s _ Hs. now apply Hsend.
  - now apply Hsend.
Qed.

Lemma check_activity_keeps (P : tracker -> Prop) (w : world) (name : string)
    (act : activity) (st : tracker) :
  (forall s text, P s -> P (deliver text s)) ->
  (forall s v, P s -> P (with_seen_txs v s)) ->
  (forall s h, P s -> P (note_alert h s)) ->
  P st -> P (fst (check_activity w name act st)).
Proof.
  intros Hdeliver Hseen Halert Hst. destruct act as [| d]; [exact Hst |].
  unfold check_activity.
  destruct (negb (is_trade d)); [exact Hst |].
  unfold bind at 1. unfold get at 1.
  destruct ((get_or (Act.transactionHash d) "" =? "")
            || set_contains (get_or (Act.transactionHash d) "") (seen_txs st));
    [exact Hst |].
  unfold bind, modify, lift.
  destruct (float_or_zero (Act.usdcSize d)) as [usdc | e1]; [| now apply Hseen].
  destruct (float_or_zero (Act.price d)) as [price | e2]; [| now apply Hseen].
  apply send_telegram_keeps; [exact Hdeliver |].
  now apply Halert, Hseen.
Qed.

Lemma scan_wallets_keeps (P : tracker -> Prop) (w : world) (st : tracker) :
  (forall s text, P s -> P (deliver text s)) ->
  (forall s v, P s -> P (with_seen_txs v s)) ->
  (forall s h, P s -> P (note_alert h s)) ->
  P st -> P (exec (scan_wallets w) st).
Proof.
  intros Hdeliver Hseen Halert Hst. unfold exec, scan_wallets, bind, get.
  apply (for_each_keeps P); [| exact Hst].
  intros [address name] s _ Hs. unfold check_wallet.
  rewrite try_except_swallow. cbn [fst].
  apply (for_each_keeps P); [| exact Hs].
  intros act s0 _ Hs0. now apply check_activity_keeps.
Qed.

Lemma check_new_trades_keeps `{Runtime} (P : tracker -> Prop) (w : world) (st : tracker) :
  (forall s text, P s -> P (deliver text s)) ->
  (forall s v, P s -> P (with_seen_txs v s)) ->
  (forall s h, P s -> P (note_alert h s)) ->
  P st -> P (exec (check_new_trades w) st).
Proof.
  intros Hdeliver Hseen Halert Hst. rewrite check_new_trades_exec.
  pose proof (scan_wallets_keeps P w st Hdeliver Hseen Halert Hst) as Hscan.
  unfold exec at 1. unfold compact_seen_txs, bind, get, modify, ret.
  destruct (2000 <? set_len (seen_txs (exec (scan_wallets w) st)))%nat;
    [now apply Hseen | exact Hscan].
Qed.

Lemma check_new_trades_registry `{Runtime} (w : world) (st : tracker) :
  wallets (exec (check_new_trades w) st) = wallets st /\
  wallets_file (exec (check_new_trades w) st) = wallets_file st.
Proof.
  apply (check_new_trades_keeps
           (fun s => wallets s = wallets st /\ wallets_file s = wallets_file st));
    auto.
Qed.

Lemma periodic_summary_frame `{Runtime} (w : world) (st : tracker) :
  same_but_channel st (fst (periodic_summary w st)) /\
  snd (periodic_summary w st) = Ok tt.
Proof.
  unfold periodic_summary. rewrite try_except_swallow. split; [| reflexivity].
  cbn [fst]. unfold bind.
  pose proof (generate_wallet_summary_pure w st) as Hpure.
  destruct (generate_wallet_summary w st) as [s [summary | e]]; simpl in Hpure; subst s.
  - destruct (negb (summary =? "")).
    + apply send_telegram_frame.
    + apply same_but_channel_refl.
  - apply same_but_channel_refl.
Qed.

Lemma cmd_summary_registry `{Runtime} (w : world) (st : tracker) :
  wallets (exec (cmd_summary w) st) = wallets st /\
  wallets_file (exec (cmd_summary w) st) = wallets_file st.
Proof.
  unfold exec, cmd_summary, bind, modify.
  set (st1 := reply "⏳ Analyse en cours..." st).
  pose proof (generate_wallet_summary_pure w st1) as Hpure.
  destruct (generate_wallet_summary w st1) as [s [summary | e]]; simpl in Hpure; subst s.
  - destruct (negb (summary =? "")).
    + destruct (send_telegram_frame w summary st1) as [(Hw & _ & Hf & _) _].
      rewrite Hw, Hf. split; reflexivity.
    + split; reflexivity.
  - split; reflexivity.
Qed.

Lemma cmd_list_replies (st : tracker) :
  exists text, cmd_list st = (reply text st, Ok tt).
Proof.
  unfold cmd_list, bind, get, modify.
  destruct (wallets st); eexists; reflexivity.
Qed.

Lemma cmd_list_registry (st : tracker) :
  wallets (exec cmd_list st) = wallets st /\
  wallets_file (exec cmd_list st) = wallets_file st.
Proof.
  unfold exec. destruct (cmd_list_replies st) as [text ->]. split; reflexivity.
Qed.

(** The registry keeps distinct addresses, and the file follows it. *)
Lemma after_event_registry `{Runtime} (file0 : wallets_json) (loaded : dict string)
    (e : event) (st : tracker) :
  NoDup (map fst (wallets st)) /\
  (wallets_file st = Saved (wallets st) \/
   (wallets_file st = file0 /\ wallets st = loaded)) ->
  NoDup (map fst (wallets (after_event e st))) /\
  (wallets_file (after_event e st) = Saved (wallets (after_event e st)) \/
   (wallets_file (after_event e st) = file0 /\ wallets (after_event e st) = loaded)).
Proof.
  intros Hinv.
  assert (Hkept : forall st',
            wallets st' = wallets st /\ wallets_file st' = wallets_file st ->
            NoDup (map fst (wallets st')) /\
            (wallets_file st' = Saved (wallets st') \/
             (wallets_file st' = file0 /\ wallets st' = loaded))).
  { intros st' [Hw Hf]. now rewrite Hw, Hf. }
  destruct Hinv as [Hnd Hfile].
  destruct e as [w h args | w c]; simpl.
  - destruct h; simpl.
    + apply Hkept. split; reflexivity.
    + apply Hkept. split; reflexivity.
    + destruct args as [| arg0 rest]; [apply Hkept; split; reflexivity |].
      unfold exec. rewrite cmd_add_run.
      destruct (startswith (lower (strip arg0)) "0x"
                && (10 <=? String.length (lower (strip arg0)))%nat).
      * cbn [fst wallets wallets_file]. split; [now apply dict_set_NoDup | now left].
      * apply Hkept. split; reflexivity.
    + destruct args as [| arg0 rest]; [apply Hkept; split; reflexivity |].
      unfold exec. rewrite cmd_remove_run.
      destruct (dict_get (lower (strip arg0)) (wallets st)) as [name |].
      * cbn [fst wallets wallets_file]. split; [now apply dict_pop_NoDup | now left].
      * apply Hkept. split; reflexivity.
    + apply Hkept, cmd_list_registry.
    + apply Hkept, cmd_summary_registry.
  - destruct c; simpl.
    + apply Hkept. unfold exec, periodic_check. rewrite try_except_swallow.
      apply check_new_trades_registry.
    + apply Hkept. unfold exec.
      destruct (periodic_summary_frame w st) as [(Hw & _ & Hf & _) _]. auto.
Qed.

Lemma load_wallets_NoDup (tracked_wallets : string) (file : wallets_json) :
  NoDup (map fst (load_wallets tracked_wallets file)).
Proof.
  destruct (load_wallets_env tracked_wallets) as [Hnd _].
  destruct file as [| | inserted | saved]; try exact Hnd;
    unfold load_wallets in *; now apply dict_update_NoDup.
Qed.

(** X9: the registry over a whole run.  After any sequence of commands and
    jobs on a freshly started tracker, the registry holds each address
    once; the file is either still the one found at start-up, with the
    registry as it was loaded, or it holds exactly the registry; and in the
    latter case starting again with that file and no [TRACKED_WALLETS]
    loads the same registry, entry for entry. *)
Theorem registry_distinct_and_saved `{Runtime} (tracked_wallets : string)
    (file : wallets_json) (es : list event) :
  let st := after_events es (init tracked_wallets file) in
  NoDup (map fst (wallets st)) /\
  (wallets_file st = Saved (wallets st) \/
   (wallets_file st = file /\ wallets st = load_wallets tracked_wallets file)) /\
  (wallets_file st = Saved (wallets st) ->
   wallets (init "" (wallets_file st)) = wallets st).
Proof.
  intros st.
  assert (Hinv : NoDup (map fst (wallets st)) /\
                 (wallets_file st = Saved (wallets st) \/
                  (wallets_file st = file /\
                   wallets st = load_wallets tracked_wallets file))).
  { subst st. unfold after_events.
    assert (Hgen : forall es0 st0,
              NoDup (map fst (wallets st0)) /\
              (wallets_file st0 = Saved (wallets st0) \/
               (wallets_file st0 = file /\
                wallets st0 = load_wallets tracked_wallets file)) ->
              NoDup (map fst (wallets (fold_left (fun s e => after_event e s) es0 st0))) /\
              (wallets_file (fold_left (fun s e => after_event e s) es0 st0)
                 = Saved (wallets (fold_left (fun s e => after_event e s) es0 st0)) \/
               (wallets_file (fold_left (fun s e => after_event e s) es0 st0) = file /\
                wallets (fold_left (fun s e => after_event e s) es0 st0)
                  = load_wallets tracked_wallets file))).
    { induction es0 as [| e r IH]; intros st0 H0; simpl; [exact H0 |].
      apply IH. now apply after_event_registry. }
    apply Hgen. simpl. split; [apply load_wallets_NoDup | right; split; reflexivity]. }
  destruct Hinv as [Hnd Hfile]. split; [exact Hnd |]. split; [exact Hfile |].
  intros Hsaved. rewrite Hsaved. simpl. unfold load_wallets. simpl.
  unfold dict_update. now apply (dict_update_nil []).
Qed.


(** ** Sending long messages *)

Lemma append_empty_r (s : string) : s ++ "" = s.
Proof. induction s as [| c r IH]; simpl; [reflexivity | now rewrite IH]. Qed.

Lemma substring_slice_from (n a m : nat) (s : string) :
  substring (n + a) m s = substring a m (slice_from n s).
Proof.
  revert s. induction n as [| n IH]; intros s; [reflexivity |].
  destruct s as [| c r]; simpl.
  - destruct a, m; reflexivity.
  - apply IH.
Qed.

Lemma substring_0_slice_from (n : nat) (s : string) :
  substring 0 n s ++ slice_from n s = s.
Proof.
  revert s. induction n as [| n IH]; intros s; simpl.
  - destruct s; reflexivity.
  - destruct s as [| c r]; simpl; [reflexivity | now rewrite IH].
Qed.

Lemma slice_from_length (n : nat) (s : string) :
  String.length (slice_from n s) = String.length s - n.
Proof.
  revert s. induction n as [| n IH]; intros s; simpl.
  - now rewrite Nat.sub_0_r.
  - destruct s as [| c r]; simpl; [reflexivity | apply IH].
Qed.

Lemma substring_length_le (a n : nat) (s : string) :
  String.length (substring a n s) <= n.
Proof.
  revert a n. induction s as [| c r IH]; intros a n.
  - destruct a, n; simpl; lia.
  - destruct a as [| a].
    + destruct n as [| n]; simpl; [lia |]. specialize (IH 0 n). lia.
    + simpl. apply IH.
Qed.

Lemma concat_empty_cons (x : string) (l : list string) :
  String.concat "" (x :: l) = x ++ String.concat "" l.
Proof.
  destruct l as [| y r]; simpl; [now rewrite append_empty_r | reflexivity].
Qed.

(** Pieces of [n] characters, enough of them to cover [s], join to [s]. *)
Lemma pieces_concat (n k : nat) (s : string) :
  String.length s <= n * k ->
  String.concat "" (map (fun i => substring (n * i) n s) (seq 0 k)) = s.
Proof.
  revert s. induction k as [| k IH]; intros s Hlen.
  - rewrite Nat.mul_0_r in Hlen. destruct s; [reflexivity | simpl in Hlen; lia].
  - cbn [seq map]. rewrite <- seq_shift, map_map, concat_empty_cons.
    rewrite Nat.mul_0_r.
    rewrite (map_ext _ (fun i => substring (n * i) n (slice_from n s))).
    + rewrite IH; [apply substring_0_slice_from |].
      rewrite slice_from_length. lia.
    + intros i. rewrite <- substring_slice_from. f_equal. lia.
Qed.

Lemma outgoing_concat (message : string) :
  String.concat "" (outgoing message) = message.
Proof.
  unfold outgoing, chunks.
  destruct (4000 <? String.length message)%nat; [| reflexivity].
  apply pieces_concat.
  pose proof (Nat.div_mod_eq (String.length message + 3999) 4000) as Hdiv.
  pose proof (Nat.mod_upper_bound (String.length message + 3999) 4000) as Hmod.
  revert Hdiv Hmod.
  generalize ((String.length message + 3999) / 4000) as q.
  generalize ((String.length message + 3999) mod 4000) as r.
  intros r q Hdiv Hmod. lia.
Qed.

Lemma outgoing_lengths (message : string) :
  Forall (fun text => String.length text <= 4000) (outgoing message).
Proof.
  unfold outgoing, chunks.
  destruct (Nat.ltb_spec 4000 (String.length message)) as [Hgt | Hle].
  - rewrite Forall_forall. intros text Hin. apply in_map_iff in Hin.
    destruct Hin as (i & <- & _). apply substring_length_le.
  - constructor; [exact Hle | constructor].
Qed.

Lemma channel_fold_deliver (texts : list string) (st : tracker) :
  channel (fold_left (fun s text => deliver text s) texts st)
  = (channel st ++ texts)%list.
Proof.
  revert st. induction texts as [| t r IH]; intros st; simpl.
  - now rewrite app_nil_r.
  - rewrite IH. simpl. now rewrite <- app_assoc.
Qed.

Lemma for_each_send (w : world) (texts : list string) (st : tracker) :
  fst (for_each texts
         (fun text => if bot_delivers w text then modify (deliver text)
                      else raise TelegramError) st)
  = fold_left (fun s text => deliver text s) (accepted_prefix (bot_delivers w) texts) st.
Proof.
  revert st. induction texts as [| t r IH]; intros st; simpl; [reflexivity |].
  unfold bind. destruct (bot_delivers w t); simpl; [apply IH | reflexivity].
Qed.

Lemma send_telegram_channel (w : world) (message : string) (st : tracker) :
  channel (fst (send_telegram w message st))
  = (channel st ++ accepted_prefix (bot_delivers w) (outgoing message))%list.
Proof.
  unfold send_telegram, outgoing. rewrite try_except_swallow. cbn [fst].
  destruct (4000 <? String.length message)%nat.
  - rewrite for_each_send. apply channel_fold_deliver.
  - rewrite <- channel_fold_deliver.
    rewrite <- (for_each_send w [message] st). simpl. unfold bind.
    destruct (bot_delivers w message); reflexivity.
Qed.

(** X10: what reaches the channel.  [send_telegram] cuts a message of more
    than 4000 characters into consecutive pieces of at most 4000 characters
    that join back to the message, and sends any other message whole; the
    channel receives these texts in order up to the first one the bot
    refuses, and nothing after it. *)
Theorem send_telegram_delivers_pieces_in_order (w : world) (message : string)
    (st : tracker) :
  channel (fst (send_telegram w message st))
    = (channel st ++ accepted_prefix (bot_delivers w) (outgoing message))%list /\
  String.concat "" (outgoing message) = message /\
  Forall (fun text => String.length text <= 4000) (outgoing message) /\
  (String.length message <= 4000 -> outgoing message = [message]).
Proof.
  split; [apply send_telegram_channel |].
  split; [apply outgoing_concat | split; [apply outgoing_lengths |]].
  intros Hle. unfold outgoing.
  destruct (Nat.ltb_spec 4000 (String.length message)); [lia | reflexivity].
Qed.


(** ** Where alerts come from *)

Lemma in_trade_hashes (d : Act.t) (acts : list activity) :
  In (Dict d) acts -> is_trade d = true ->
  In (get_or (Act.transactionHash d) "") (trade_hashes acts).
Proof.
  intros Hin Ht. unfold trade_hashes. apply in_flat_map.
  exists (Dict d). split; [exact Hin |]. rewrite Ht. now left.
Qed.

(** The three ways one record can leave the tracker: untouched; with the
    record's hash marked (a number did not convert); or with the hash
    marked, the alert noted and the message sent. *)
Lemma check_activity_cases (w : world) (name : string) (act : activity) (st : tracker) :
  fst (check_activity w name act st) = st \/
  exists d,
    act = Dict d /\ is_trade d = true /\
    get_or (Act.transactionHash d) "" <> "" /\
    ~ In (get_or (Act.transactionHash d) "") (seen_txs st) /\
    (fst (check_activity w name act st)
       = with_seen_txs (set_add (get_or (Act.transactionHash d) "") (seen_txs st)) st \/
     exists msg,
       fst (check_activity w name act st)
       = fst (send_telegram w msg
                (note_alert (get_or (Act.transactionHash d) "")
                   (with_seen_txs
                      (set_add (get_or (Act.transactionHash d) "") (seen_txs st)) st)))).
Proof.
  destruct act as [| d]; [now left |].
  remember (fst (check_activity w name (Dict d) st)) as st' eqn:E.
  unfold check_activity in E.
  destruct (is_trade d) eqn:Ht; [| now left]. cbn [negb] in E.
  unfold bind at 1 in E. unfold get at 1 in E.
  destruct (get_or (Act.transactionHash d) "" =? "") eqn:Hempty; [now left |].
  destruct (set_contains (get_or (Act.transactionHash d) "") (seen_txs st)) eqn:Hseen;
    [now left |].
  cbn [orb] in E. apply String.eqb_neq in Hempty. apply set_contains_false in Hseen.
  right. exists d. repeat (split; [assumption || reflexivity |]).
  unfold bind, modify, lift in E.
  destruct (float_or_zero (Act.usdcSize d)) as [usdc | e1]; [| left; exact E].
  destruct (float_or_zero (Act.price d)) as [price | e2]; [| left; exact E].
  right. eexists. exact E.
Qed.

(** One record adds to the alerts and to the seen hashes nothing but its
    own hash. *)
Lemma check_activity_sources (w : world) (name : string) (act : activity)
    (fetched : list string) (st0 st : tracker) :
  (forall d, act = Dict d -> is_trade d = true ->
             In (get_or (Act.transactionHash d) "") fetched) ->
  (forall h, In h (alerts st) -> In h (alerts st0) \/ (In h fetched /\ h <> "")) /\
  (forall h, In h (seen_txs st) -> In h (seen_txs st0) \/ In h fetched) ->
  (forall h, In h (alerts (fst (check_activity w name act st))) ->
             In h (alerts st0) \/ (In h fetched /\ h <> "")) /\
  (forall h, In h (seen_txs (fst (check_activity w name act st))) ->
             In h (seen_txs st0) \/ In h fetched).
Proof.
  intros Hact Hst.
  destruct (check_activity_cases w name act st)
    as [-> | (d & -> & Ht & Hne & Hnew & Hcase)]; [exact Hst |].
  specialize (Hact d eq_refl Ht). destruct Hst as [Ha Hs].
  assert (Hs' : forall h, In h (set_add (get_or (Act.transactionHash d) "") (seen_txs st)) ->
                          In h (seen_txs st0) \/ In h fetched).
  { intros h Hh. apply in_set_add in Hh. destruct Hh as [-> | Hh]; auto. }
  destruct Hcase as [-> | [msg ->]].
  - split; assumption.
  - match goal with
    | |- (forall h, In h (alerts (fst (send_telegram w msg ?s))) -> _) /\ _ =>
        destruct (send_telegram_frame w msg s) as [(_ & Hseen & _ & _ & Halerts) _];
        rewrite Hseen, Halerts
    end.
    unfold note_alert, with_seen_txs. simpl. split; [| exact Hs'].
    intros h Hh. apply in_app_iff in Hh. destruct Hh as [Hh | [<- | []]]; auto.
Qed.

Lemma scan_wallets_sources (w : world) (st : tracker) :
  (forall h, In h (alerts (exec (scan_wallets w) st)) ->
             In h (alerts st) \/ (In h (fetched_hashes w (wallets st)) /\ h <> "")) /\
  (forall h, In h (seen_txs (exec (scan_wallets w) st)) ->
             In h (seen_txs st) \/ In h (fetched_hashes w (wallets st))).
Proof.
  unfold exec, scan_wallets, bind, get.
  set (fetched := fetched_hashes w (wallets st)).
  apply (for_each_keeps
           (fun s =>
              (forall h, In h (alerts s) -> In h (alerts st) \/ (In h fetched /\ h <> "")) /\
              (forall h, In h (seen_txs s) -> In h (seen_txs st) \/ In h fetched)));
    [| split; auto].
  intros [address name] s Hitem Hs. unfold check_wallet.
  rewrite try_except_swallow. cbn [fst].
  apply (for_each_keeps
           (fun s =>
              (forall h, In h (alerts s) -> In h (alerts st) \/ (In h fetched /\ h <> "")) /\
              (forall h, In h (seen_txs s) -> In h (seen_txs st) \/ In h fetched)));
    [| exact Hs].
  intros act s0 Hact Hs0. apply check_activity_sources; [| exact Hs0].
  intros d -> Ht. subst fetched. unfold fetched_hashes. apply in_flat_map.
  exists (address, name). split; [exact Hitem |]. now apply in_trade_hashes.
Qed.

(** X11: no alert out of thin air.  Every hash a pass alerts is the
    non-empty [transactionHash] of a TRADE record that the API returned in
    this pass for a wallet of the registry; and every hash in [seen_txs]
    after the pass was there before it or is such a fetched hash. *)
Theorem alerts_come_from_fetched_trades `{Runtime} (w : world) (st : tracker) :
  (forall h, In h (alerts (exec (check_new_trades w) st)) ->
             In h (alerts st) \/ (In h (fetched_hashes w (wallets st)) /\ h <> "")) /\
  (forall h, In h (seen_txs (exec (check_new_trades w) st)) ->
             In h (seen_txs st) \/ In h (fetched_hashes w (wallets st))).
Proof.
  rewrite check_new_trades_exec, compact_seen_txs_alerts.
  destruct (scan_wallets_sources w st) as [Ha Hs]. split; [exact Ha |].
  intros h Hh. apply Hs.
  unfold exec in Hh at 1. unfold compact_seen_txs, bind, get, modify, ret in Hh.
  destruct (2000 <? set_len (seen_txs (exec (scan_wallets w) st)))%nat; [| exact Hh].
  cbn [fst seen_txs with_seen_txs] in Hh.
  assert (Hsub : forall l acc x,
            In x (fold_left (fun s y => set_add y s) l acc) -> In x acc \/ In x l).
  { induction l as [| y r IH]; intros acc x Hx; simpl in *; [auto |].
    apply IH in Hx. destruct Hx as [Hx | Hx]; [| auto].
    apply in_set_add in Hx. destruct Hx as [-> | Hx]; auto. }
  apply Hsub in Hh. destruct Hh as [[] | Hh].
  apply in_skipn in Hh. now apply (Permutation_in _ (iter_order_perm _)).
Qed.

(** X12: a pass with nothing new.  When every TRADE hash the API returns is
    empty or already in [seen_txs], and the set holds at most 2000 hashes,
    [check_new_trades] leaves the tracker exactly as it was: no alert, no
    message, no change of the set. *)
Theorem pass_without_new_trades_is_idle `{Runtime} (w : world) (st : tracker) :
  (forall h, In h (fetched_hashes w (wallets st)) -> h = "" \/ In h (seen_txs st)) ->
  set_len (seen_txs st) <= 2000 ->
  check_new_trades w st = (st, Ok tt).
Proof.
  intros Hknown Hlen.
  assert (Hscan : scan_wallets w st = (st, Ok tt)).
  { unfold scan_wallets, bind, get.
    apply for_each_idle. intros [address name] Hitem.
    unfold check_wallet. rewrite try_except_swallow.
    rewrite for_each_idle; [reflexivity |].
    intros act Hact. destruct act as [| d]; [reflexivity |].
    unfold check_activity. destruct (is_trade d) eqn:Ht; [| reflexivity].
    cbn [negb]. unfold bind at 1. unfold get at 1.
    assert (Hin : In (get_or (Act.transactionHash d) "") (fetched_hashes w (wallets st))).
    { unfold fetched_hashes. apply in_flat_map.
      exists (address, name). split; [exact Hitem |]. now apply in_trade_hashes. }
    destruct (Hknown _ Hin) as [-> | Hseen]; [reflexivity |].
    apply set_contains_true in Hseen. rewrite Hseen. now rewrite orb_true_r. }
  unfold check_new_trades, bind. rewrite Hscan.
  unfold compact_seen_txs, bind, get, ret.
  destruct (Nat.ltb_spec 2000 (set_len (seen_txs st))); [lia | reflexivity].
Qed.

Lemma pass_without_new_trades_is_idle_witness :
  @check_new_trades insertion_order alpha_twice
    (with_seen_txs ["0x01"; "0x02"] two_wallets)
  = (with_seen_txs ["0x01"; "0x02"] two_wallets, Ok tt).
Proof.
  apply (@pass_without_new_trades_is_idle insertion_order).
  - intros h Hh. right. vm_compute in Hh. vm_compute. tauto.
  - vm_compute. lia.
Defined.





(** ** More on the summary pass *)

(** The three ways one record can leave the locals of the summary. *)
Lemma fold_activity_cases (address name : string) (act : activity) (s : summary_state) :
  (qualifies act = false /\ fold_activity address name act s = (s, Ok tt)) \/
  (qualifies act = true /\
   exists e, fold_activity address name act s = (count_trade s, Raise e)) \/
  (qualifies act = true /\
   exists d usdc price,
     act = Dict d /\
     get_or (Act.title d) "" <> "" /\
     float_or_zero (Act.price d) = Ok price /\
     fold_activity address name act s =
       ({| market_buys :=
             dd_update Market.default (get_or (Act.title d) "")
               (fold_effect address name (get_or (Act.side d) "")
                  (get_or (Act.outcome d) "") usdc price)
               (market_buys s);
           total_trades := S (total_trades s) |}, Ok tt)).
Proof.
  destruct (qualifies act) eqn:Hq.
  - right. destruct act as [| d]; [discriminate |]. simpl in Hq.
    apply andb_true_iff in Hq. destruct Hq as [Ht Htitle].
    apply negb_true_iff, String.eqb_neq in Htitle.
    destruct (float_or_zero (Act.usdcSize d)) as [usdc | e1] eqn:Hu.
    + destruct (float_or_zero (Act.price d)) as [price | e2] eqn:Hp.
      * right. split; [reflexivity |]. exists d, usdc, price.
        repeat (split; [assumption || reflexivity |]).
        now apply fold_activity_run.
      * left. split; [reflexivity |].
        apply fold_activity_raise; auto. intros u p Hu' Hp'. congruence.
    + left. split; [reflexivity |].
      apply fold_activity_raise; auto. intros u p Hu' Hp'. congruence.
  - left. split; [reflexivity |]. now apply fold_activity_skip.
Qed.

Lemma folded_trades_dd_update (title : string) (f : Market.t -> Market.t)
    (mb : dict Market.t) :
  (forall m, List.length (Market.wallet_names (f m))
             = S (List.length (Market.wallet_names m))) ->
  folded_trades (dd_update Market.default title f mb) = S (folded_trades mb).
Proof.
  intros Hf. unfold folded_trades.
  induction mb as [| [k v] r IH]; simpl.
  - rewrite Hf. simpl. lia.
  - destruct (k =? title); simpl; [rewrite Hf | rewrite IH]; lia.
Qed.

Lemma fold_effect_wallet_names (address name side outcome : string) (usdc price : float)
    (m : Market.t) :
  Market.wallet_names (fold_effect address name side outcome usdc price m)
  = (Market.wallet_names m ++ [name])%list.
Proof.
  unfold fold_effect.
  destruct (PrimFloat.ltb 0 price); destruct (negb (outcome =? ""));
    destruct (upper side =? "BUY"); destruct (upper side =? "SELL"); reflexivity.
Qed.

(** The inner loop, when it ends normally, has counted and folded each
    qualifying record once. *)
Lemma fold_activities_counts (address name : string) (acts : list activity)
    (s s' : summary_state) :
  for_each acts (fold_activity address name) s = (s', Ok tt) ->
  total_trades s' = total_trades s + List.length (filter qualifies acts) /\
  folded_trades (market_buys s')
  = folded_trades (market_buys s) + List.length (filter qualifies acts).
Proof.
  revert s. induction acts as [| act r IH]; intros s Hrun; simpl in *.
  - unfold ret in Hrun. inversion Hrun. lia.
  - unfold bind in Hrun.
    destruct (fold_activity_cases address name act s)
      as [[Hq Hstep] | [[Hq [e Hstep]] | [Hq (d & usdc & price & _ & _ & _ & Hstep)]]];
      rewrite Hstep in Hrun; rewrite Hq.
    + now apply IH.
    + discriminate.
    + apply IH in Hrun. cbn [market_buys total_trades] in Hrun.
      rewrite folded_trades_dd_update in Hrun.
      * simpl. lia.
      * intros m. rewrite fold_effect_wallet_names, length_app. simpl. lia.
Qed.

Lemma fold_wallets_counts (w : world) (registry : dict string) (s s' : summary_state) :
  fold_wallets w registry s = (s', Ok tt) ->
  total_trades s' = total_trades s + qualifying_count w registry /\
  folded_trades (market_buys s')
  = folded_trades (market_buys s) + qualifying_count w registry.
Proof.
  unfold fold_wallets, qualifying_count.
  revert s. induction registry as [| [address name] r IH]; intros s Hrun; simpl in *.
  - unfold ret in Hrun. inversion Hrun. lia.
  - unfold bind in Hrun.
    destruct (for_each (get_wallet_activity w address 50) (fold_activity address name) s)
      as [s1 [[] | e]] eqn:Hinner; [| discriminate].
    apply fold_activities_counts in Hinner. apply IH in Hrun. lia.
Qed.

Lemma list_sum_zero (l : list nat) : list_sum l = 0 -> Forall (fun n => n = 0) l.
Proof.
  induction l as [| n r IH]; simpl; intros H; constructor; [lia | apply IH; lia].
Qed.

Lemma qualifying_count_zero (w : world) (registry : dict string) :
  qualifying_count w registry = 0 ->
  forall address name, In (address, name) registry ->
    forallb (fun act => negb (qualifies act)) (get_wallet_activity w address 50) = true.
Proof.
  unfold qualifying_count. intros Hzero address name Hin.
  apply list_sum_zero in Hzero. rewrite Forall_forall in Hzero.
  assert (Hlen : List.length (filter qualifies (get_wallet_activity w address 50)) = 0).
  { apply Hzero. apply in_map_iff. exists (address, name). split; [reflexivity | exact Hin]. }
  apply forallb_forall. intros act Hact.
  destruct (qualifies act) eqn:Hq; [| reflexivity].
  assert (Hf : In act (filter qualifies (get_wallet_activity w address 50)))
    by (apply filter_In; auto).
  destruct (filter qualifies (get_wallet_activity w address 50)); [destruct Hf | discriminate].
Qed.

Lemma render_summary_empty `{Runtime} (w : world) (n_wallets : nat) (s : summary_state) :
  render_summary w n_wallets s = "" <-> market_buys s = [].
Proof.
  unfold render_summary. destruct (market_buys s) as [| x r].
  - tauto.
  - split; [| intros Habs; discriminate Habs].
    unfold header_lines, join. cbn [app String.concat].
    match goal with
    | |- _ ++ ?t = "" -> _ => generalize t
    end.
    intros t Habs. simpl in Habs. discriminate Habs.
Qed.


Lemma generate_wallet_summary_result `{Runtime} (w : world) (st st' : tracker) :
  wallets st = wallets st' ->
  snd (generate_wallet_summary w st) = snd (generate_wallet_summary w st').
Proof.
  intros Hw. unfold generate_wallet_summary, bind, get, ret, raise. rewrite Hw.
  destruct (fold_wallets w (wallets st') empty_summary) as [s [[] | e]]; reflexivity.
Qed.

(** X14: the summary pass reads nothing but the registry.
    [generate_wallet_summary] leaves the tracker as it is, and its result
    is the same for two trackers with the same registry, whatever their
    seen hashes: a trade already alerted is summarised like any other.
    [periodic_summary] never raises. *)
Theorem summary_reads_only_the_registry `{Runtime} (w : world) :
  (forall st, fst (generate_wallet_summary w st) = st) /\
  (forall st st',
     wallets st = wallets st' ->
     snd (generate_wallet_summary w st) = snd (generate_wallet_summary w st')) /\
  (forall st, snd (periodic_summary w st) = Ok tt).
Proof.
  split; [intros st; apply generate_wallet_summary_pure |].
  split; [intros st st'; apply generate_wallet_summary_result |].
  intros st. apply periodic_summary_frame.
Qed.

(** X15: what the summary counts.  When [generate_wallet_summary] returns a
    report, the loops have counted in [total_trades], and folded into the
    markets, exactly the qualifying records fetched (TRADE records with a
    non-empty title, over all wallets); this is the number the header
    shows; and the report is empty exactly when there is no such record. *)
Theorem summary_counts_qualifying_records `{Runtime} (w : world) (st : tracker)
    (summary : string) :
  snd (generate_wallet_summary w st) = Ok summary ->
  (summary = "" <-> qualifying_count w (wallets st) = 0) /\
  exists s,
    fold_wallets w (wallets st) empty_summary = (s, Ok tt) /\
    summary = render_summary w (List.length (wallets st)) s /\
    total_trades s = qualifying_count w (wallets st) /\
    folded_trades (market_buys s) = qualifying_count w (wallets st).
Proof.
  unfold generate_wallet_summary, bind, get, ret, raise.
  destruct (fold_wallets w (wallets st) empty_summary) as [s [[] | e]] eqn:Hfold;
    simpl; intros Hres; [| discriminate].
  inversion Hres as [Hsummary]. clear Hres.
  destruct (fold_wallets_counts w (wallets st) empty_summary s Hfold) as [Htotal Hfolded].
  change (total_trades empty_summary) with 0 in Htotal.
  change (folded_trades (market_buys empty_summary)) with 0 in Hfolded.
  rewrite Nat.add_0_l in Htotal, Hfolded. split.
  - rewrite render_summary_empty. split.
    + intros Hmb. rewrite Hmb in Hfolded.
      change (folded_trades []) with 0 in Hfolded. now symmetry.
    + intros Hzero.
      pose proof (fold_wallets_nothing w (wallets st)
                    (qualifying_count_zero w (wallets st) Hzero)) as Hnone.
      rewrite Hnone in Hfold. inversion Hfold. reflexivity.
  - exists s. repeat split; auto.
Qed.

Lemma summary_counts_qualifying_records_witness :
  exists s,
    fold_wallets alpha_twice (wallets two_wallets) empty_summary = (s, Ok tt) /\
    total_trades s = 2.
Proof.
  destruct (@summary_counts_qualifying_records insertion_order alpha_twice two_wallets
              (match snd (@generate_wallet_summary insertion_order alpha_twice two_wallets) with
               | Ok summary => summary
               | Raise _ => ""
               end))
    as [_ (s & Hfold & _ & Htotal & _)].
  - vm_compute. reflexivity.
  - exists s. split; [exact Hfold |]. rewrite Htotal. vm_compute. reflexivity.
Defined.

Lemma in_dd_update_keys {V} (dflt : V) (k k0 : string) (f : V -> V) (d : dict V) :
  In k0 (map fst (dd_update dflt k f d)) <-> k0 = k \/ In k0 (map fst d).
Proof.
  induction d as [| [k' v'] r IH]; simpl.
  - intuition.
  - destruct (k' =? k) eqn:E; simpl.
    + apply String.eqb_eq in E. subst. intuition.
    + rewrite IH. intuition.
Qed.

Lemma dd_update_NoDup {V} (dflt : V) (k : string) (f : V -> V) (d : dict V) :
  NoDup (map fst d) -> NoDup (map fst (dd_update dflt k f d)).
Proof.
  induction d as [| [k' v'] r IH]; simpl; intros Hnd.
  - repeat constructor. intros [].
  - inversion Hnd as [| ? ? Hk Hr]; subst.
    destruct (k' =? k) eqn:E; simpl.
    + now constructor.
    + constructor; [| now apply IH].
      rewrite in_dd_update_keys. intros [-> | Hin]; [| contradiction].
      now rewrite String.eqb_refl in E.
Qed.

Lemma market_sound_fold_effect (registry : dict string)
    (address name side outcome : string) (usdc price : float) (m : Market.t) :
  In address (map fst registry) ->
  In name (map snd registry) ->
  (Market.buy_count m + Market.sell_count m <= List.length (Market.wallet_names m) /\
   List.length (Market.prices m) <= List.length (Market.wallet_names m) /\
   List.length (Market.outcomes m) <= List.length (Market.wallet_names m) /\
   NoDup (Market.wallets m) /\
   (forall a, In a (Market.wallets m) -> In a (map fst registry)) /\
   (forall n, In n (Market.wallet_names m) -> In n (map snd registry)) /\
   Forall (fun p => PrimFloat.ltb 0 p = true) (Market.prices m) /\
   ~ In "" (Market.outcomes m)) ->
  market_sound registry (fold_effect address name side outcome usdc price m).
Proof.
  intros Haddr Hname (Hc & Hp & Ho & Hnd & Hw & Hn & Hpos & Hout).
  assert (Hw' : forall a, In a (set_add address (Market.wallets m)) ->
                          In a (map fst registry)).
  { intros a Ha. apply in_set_add in Ha. destruct Ha as [-> | Ha]; auto. }
  assert (Hn' : forall n, In n (Market.wallet_names m ++ [name])%list ->
                          In n (map snd registry)).
  { intros n Hin. apply in_app_iff in Hin. destruct Hin as [Hin | [<- | []]]; auto. }
  assert (Hnd' : NoDup (set_add address (Market.wallets m))) by now apply NoDup_set_add.
  unfold fold_effect, market_sound.
  destruct (PrimFloat.ltb 0 price) eqn:Elt;
    destruct (outcome =? "") eqn:Eo;
    destruct (upper side =? "BUY"); destruct (upper side =? "SELL");
    cbn [negb Market.buy_count Market.sell_count Market.wallet_names Market.prices
         Market.outcomes Market.wallets Market.add_wallet Market.append_wallet_name
         Market.add_usdc Market.add_trader_name Market.append_price
         Market.append_outcome Market.incr_buy Market.incr_sell];
    rewrite ?length_app; cbn [List.length];
    (split; [lia |]); (split; [lia |]); (split; [lia |]);
    (split; [exact Hnd' |]); (split; [exact Hw' |]); (split; [exact Hn' |]);
    (split;
     [ first [ exact Hpos
             | apply Forall_app; split; [exact Hpos | repeat constructor; exact Elt] ]
     | first [ exact Hout
             | intros Hin; apply in_app_iff in Hin;
               destruct Hin as [Hin | [Heq | []]];
               [ contradiction
               | subst outcome; rewrite String.eqb_refl in Eo; discriminate Eo ] ] ]).
Qed.

Lemma market_sound_default_premise (registry : dict string) :
  Market.buy_count Market.default + Market.sell_count Market.default
    <= List.length (Market.wallet_names Market.default) /\
  List.length (Market.prices Market.default)
    <= List.length (Market.wallet_names Market.default) /\
  List.length (Market.outcomes Market.default)
    <= List.length (Market.wallet_names Market.default) /\
  NoDup (Market.wallets Market.default) /\
  (forall a, In a (Market.wallets Market.default) -> In a (map fst registry)) /\
  (forall n, In n (Market.wallet_names Market.default) -> In n (map snd registry)) /\
  Forall (fun p => PrimFloat.ltb 0 p = true) (Market.prices Market.default) /\
  ~ In "" (Market.outcomes Market.default).
Proof.
  simpl. repeat split; try lia; try constructor; try tauto.
Qed.

(** X16: what holds of every market of a summary pass, however the pass
    ends.  Titles are distinct and not empty.  In each market the buys and
    sells together, the prices and the outcomes are each at most as many as
    the trades folded (the length of the name list); the wallets are
    distinct addresses of the registry and the names are names of the
    registry; every recorded price is positive and no recorded outcome is
    empty. *)
Theorem markets_are_sound (w : world) (registry : dict string) :
  let mb := market_buys (exec (fold_wallets w registry) empty_summary) in
  NoDup (map fst mb) /\
  ~ In "" (map fst mb) /\
  Forall (fun kv => market_sound registry (snd kv)) mb.
Proof.
  intros mb. subst mb. unfold exec, fold_wallets.
  set (Q := fun s : summary_state =>
              NoDup (map fst (market_buys s)) /\
              ~ In "" (map fst (market_buys s)) /\
              Forall (fun kv => market_sound registry (snd kv)) (market_buys s)).
  change (Q (fst (for_each registry
                    (fun item : string * string =>
                       let (address, name) := item in
                       for_each (get_wallet_activity w address 50)
                         (fold_activity address name))
                    empty_summary))).
  apply (for_each_keeps Q).
  - intros [address name] s Hitem Hs.
    assert (Haddr : In address (map fst registry))
      by (apply in_map_iff; exists (address, name); auto).
    assert (Hname : In name (map snd registry))
      by (apply in_map_iff; exists (address, name); auto).
    apply (for_each_keeps Q); [| exact Hs].
    intros act s0 _ (Hnd & Hne & Hall).
    destruct (fold_activity_cases address name act s0)
      as [[_ ->] | [[_ [e ->]] | [_ (d & usdc & price & _ & Htitle & _ & ->)]]];
      unfold Q; cbn [fst market_buys count_trade]; auto.
    split; [now apply dd_update_NoDup |]. split.
    + rewrite in_dd_update_keys. intros [Heq | Hin]; [congruence | contradiction].
    + apply dd_update_Forall; [| | exact Hall].
      * apply market_sound_fold_effect; auto. apply market_sound_default_premise.
      * intros v Hv. apply market_sound_fold_effect; auto.
  - unfold Q. simpl. repeat split; [constructor | tauto | constructor].
Qed.



(** ** The outcome shown for a market *)

Lemma set_of_list_snoc (l : list string) (x : string) :
  set_of_list (l ++ [x]) = set_add x (set_of_list l).
Proof. unfold set_of_list. now rewrite fold_left_app. Qed.

Lemma counter_snoc (l : list string) (x : string) :
  counter (l ++ [x]) = counter_add x (counter l).
Proof. unfold counter. now rewrite fold_left_app. Qed.

Lemma set_of_list_facts (l : list string) :
  NoDup (set_of_list l) /\ forall x, In x (set_of_list l) <-> In x l.
Proof.
  induction l as [| x l [Hnd Hin]] using rev_ind.
  - split; [constructor | intros x; reflexivity].
  - rewrite set_of_list_snoc. split; [now apply NoDup_set_add |].
    intros y. rewrite in_set_add, in_app_iff, Hin. simpl. intuition.
Qed.

Lemma set_add_cons_other (x k : string) (r : pyset) :
  k <> x -> set_add x (k :: r) = k :: set_add x r.
Proof.
  intros Hne. unfold set_add. simpl.
  destruct (x =? k) eqn:E; [apply String.eqb_eq in E; congruence |].
  simpl. destruct (set_contains x r); reflexivity.
Qed.

Lemma counter_add_map (x : string) (c : string -> nat) (keys : list string) :
  NoDup keys -> (~ In x keys -> c x = 0) ->
  counter_add x (map (fun y => (y, c y)) keys)
  = map (fun y => (y, if string_dec x y then S (c y) else c y)) (set_add x keys).
Proof.
  induction keys as [| k r IH]; intros Hnd Hzero.
  - simpl. destruct (string_dec x x); [| congruence]. rewrite Hzero; auto.
  - inversion Hnd as [| ? ? Hk Hr]; subst. cbn [map counter_add].
    destruct (k =? x) eqn:E.
    + apply String.eqb_eq in E. subst k.
      assert (Hset : set_add x (x :: r) = x :: r).
      { unfold set_add. simpl. now rewrite String.eqb_refl. }
      rewrite Hset. cbn [map]. destruct (string_dec x x); [| congruence].
      f_equal. apply map_ext_in. intros y Hy.
      destruct (string_dec x y); [subst; contradiction | reflexivity].
    + apply String.eqb_neq in E. rewrite (set_add_cons_other x k r E). cbn [map].
      destruct (string_dec x k); [congruence |]. f_equal.
      apply IH; [exact Hr |]. intros Hx. apply Hzero. intros [Heq | Hin]; auto.
Qed.

(** [Counter(l)] lists the distinct elements of [l] in the order of their
    first occurrence, each with its number of occurrences. *)
Lemma counter_spec (l : list string) :
  counter l = map (fun y => (y, count_occ string_dec l y)) (set_of_list l).
Proof.
  induction l as [| x l IH] using rev_ind; [reflexivity |].
  rewrite counter_snoc, set_of_list_snoc, IH.
  destruct (set_of_list_facts l) as [Hnd Hin].
  rewrite counter_add_map; [| exact Hnd |].
  - apply map_ext. intros y. f_equal. rewrite count_occ_app. simpl.
    destruct (string_dec x y); lia.
  - intros Hx. apply count_occ_not_In. now rewrite <- Hin.
Qed.

(** [first_max] returns the first entry among those with the largest count. *)
Lemma first_max_spec (best : string * nat) (r : list (string * nat)) :
  exists l1 l2,
    best :: r = (l1 ++ first_max best r :: l2)%list /\
    (forall y, In y l1 -> snd y < snd (first_max best r)) /\
    (forall y, In y l2 -> snd y <= snd (first_max best r)).
Proof.
  revert best. induction r as [| x r IH]; intros best.
  - exists [], []. simpl. repeat split; intros y [].
  - cbn [first_max].
    destruct (Nat.ltb_spec (snd best) (snd x)) as [Hlt | Hge].
    + destruct (IH x) as (l1 & l2 & Heq & H1 & H2).
      exists (best :: l1), l2.
      split; [cbn [app]; f_equal; exact Heq |]. split; [| exact H2].
      intros y [Hy | Hy]; [subst y | now apply H1].
      destruct l1 as [| z l1]; cbn [app] in Heq; injection Heq as Hx Hr.
      * rewrite <- Hx. exact Hlt.
      * pose proof (H1 z (or_introl eq_refl)) as Hz. rewrite <- Hx in Hz. lia.
    + destruct (IH best) as (l1 & l2 & Heq & H1 & H2).
      destruct l1 as [| z l1]; cbn [app] in Heq; injection Heq as Hb Hr.
      * exists [], (x :: l2). cbn [app].
        split; [f_equal; [exact Hb | f_equal; exact Hr] |].
        split; [intros y [] |].
        intros y [Hy | Hy]; [subst y; rewrite <- Hb; exact Hge | now apply H2].
      * exists (best :: x :: l1), l2. cbn [app].
        split; [do 2 f_equal; exact Hr |]. split; [| exact H2].
        pose proof (H1 z (or_introl eq_refl)) as Hbest. rewrite <- Hb in Hbest.
        intros y [Hy | [Hy | Hy]]; [subst y; exact Hbest | subst y; lia |].
        apply H1. now right.
Qed.

(** X18: the outcome a market line shows.  For a non-empty list of recorded
    outcomes, [Counter(outcomes).most_common(1)] is an outcome of the list
    with its number of occurrences; no outcome occurs more often; and every
    outcome first met before it occurs strictly less often, so among the
    most frequent outcomes the first met wins.  For an empty list there is
    none. *)
Theorem top_outcome_is_first_most_frequent (outcomes : list string) :
  match most_common1 (counter outcomes) with
  | None => outcomes = []
  | Some (o, n) =>
      n = count_occ string_dec outcomes o /\
      In o outcomes /\
      (forall o', count_occ string_dec outcomes o' <= n) /\
      exists before after,
        set_of_list outcomes = (before ++ o :: after)%list /\
        forall o', In o' before -> count_occ string_dec outcomes o' < n
  end.
Proof.
  destruct (set_of_list_facts outcomes) as [Hnd Hin].
  rewrite counter_spec.
  destruct (set_of_list outcomes) as [| k keys] eqn:Hkeys.
  - simpl. destruct outcomes as [| x r]; [reflexivity |].
    exfalso. apply (Hin x). now left.
  - set (F := fun y => (y, count_occ string_dec outcomes y)).
    change (map F (k :: keys)) with (F k :: map F keys).
    cbn [most_common1].
    destruct (first_max_spec (F k) (map F keys)) as (l1 & l2 & Heq & H1 & H2).
    set (res := first_max (F k) (map F keys)) in *.
    assert (Hres_in : In res (map F (k :: keys))).
    { cbn [map]. rewrite Heq. apply in_or_app. right. now left. }
    apply in_map_iff in Hres_in. destruct Hres_in as (o & Hres & Ho).
    rewrite <- Hres. unfold F at 1.
    split; [reflexivity |]. split; [now apply Hin |]. split.
    + intros o'. destruct (in_dec string_dec o' outcomes) as [Hi | Hni].
      * apply Hin in Hi. apply (in_map F) in Hi. cbn [map] in Hi. rewrite Heq in Hi.
        change (count_occ string_dec outcomes o) with (snd (F o)). rewrite Hres.
        apply in_app_iff in Hi. destruct Hi as [Hi | [Hi | Hi]].
        -- specialize (H1 _ Hi). simpl in H1. lia.
        -- rewrite Hi. simpl. lia.
        -- specialize (H2 _ Hi). simpl in H2. exact H2.
      * rewrite (count_occ_not_In string_dec) in Hni. lia.
    + exists (map fst l1), (map fst l2).
      assert (Hfst : forall l, map fst (map F l) = l).
      { intros l. rewrite map_map. unfold F. simpl. apply map_id. }
      split.
      * rewrite <- (Hfst (k :: keys)).
        change (map F (k :: keys)) with (F k :: map F keys).
        rewrite Heq, map_app. cbn [map]. now rewrite <- Hres.
      * intros o' Ho'. apply in_map_iff in Ho'. destruct Ho' as (y & Hy & Hyin).
        assert (Hy' : In y (map F (k :: keys))).
        { cbn [map]. rewrite Heq. apply in_or_app. now left. }
        apply in_map_iff in Hy'. destruct Hy' as (z & Hz & _).
        specialize (H1 y Hyin). rewrite <- Hz in Hy, H1. simpl in Hy. subst z.
        rewrite <- Hres in H1. exact H1.
Qed.

(** ** The side of a trade, in the alert and in the summary *)

(** X19: the letter case of [side].  For a TRADE record whose side reads
    BUY in another letter case (as "buy"), the alert of [check_new_trades]
    compares the side as it is and opens with the red mark followed by the
    side as received, while the summary compares [side.upper()] and counts
    the record as a buy of its market. *)
Theorem side_letter_case_alert_vs_summary (w : world) (address name side : string)
    (d : Act.t) (usdc price : float) (st : tracker) (s : summary_state) :
  let h := get_or (Act.transactionHash d) "" in
  let title := get_or (Act.title d) "" in
  is_trade d = true ->
  Act.side d = Some side ->
  upper side = "BUY" ->
  side <> "BUY" ->
  float_or_zero (Act.usdcSize d) = Ok usdc ->
  float_or_zero (Act.price d) = Ok price ->
  (h <> "" -> ~ In h (seen_txs st) ->
   exists rest,
     check_activity w name (Dict d) st =
       send_telegram w ("🔴 " ++ side ++ rest)
         (note_alert h (with_seen_txs (set_add h (seen_txs st)) st))) /\
  (title <> "" ->
   Market.buy_count
     (dd_get Market.default title
        (market_buys (exec (fold_activity address name (Dict d)) s)))
   = S (Market.buy_count (dd_get Market.default title (market_buys s))) /\
   Market.sell_count
     (dd_get Market.default title
        (market_buys (exec (fold_activity address name (Dict d)) s)))
   = Market.sell_count (dd_get Market.default title (market_buys s))).
Proof.
  intros h title Ht Hside Hup Hne Hu Hp. split.
  - intros Hh Hnew.
    apply String.eqb_neq in Hh. apply set_contains_false in Hnew.
    apply String.eqb_neq in Hne.
    unfold check_activity. rewrite Ht. cbn [negb]. fold h.
    unfold bind at 1. unfold get at 1. rewrite Hh, Hnew. cbn [orb].
    unfold bind, modify, lift. rewrite Hu, Hp, Hside. cbn [get_or].
    unfold trade_message. rewrite Hne.
    eexists. reflexivity.
  - intros Htitle. unfold exec.
    rewrite (fold_activity_run address name d s usdc price Ht Htitle Hu Hp).
    fold title. cbn [fst market_buys]. unfold dd_get at 1 3.
    rewrite dict_get_dd_update_same. rewrite Hside. cbn [get_or].
    unfold fold_effect. rewrite Hup. cbn [String.eqb Ascii.eqb Bool.eqb].
    destruct (PrimFloat.ltb 0 price);
      destruct (negb (get_or (Act.outcome d) "" =? "")); split; reflexivity.
Qed.

Lemma side_letter_case_alert_vs_summary_witness :
  (exists rest,
     check_activity quiet "Alpha"
       (trade "0x01" "buy" "Will X happen?" "Yes" 100 0.5) two_wallets =
       send_telegram quiet ("🔴 buy" ++ rest)
         (note_alert "0x01" (with_seen_txs ["0x01"] two_wallets))) /\
  Market.buy_count
    (dd_get Market.default "Will X happen?"
       (market_buys
          (exec (fold_activity alpha "Alpha"
                   (trade "0x01" "buy" "Will X happen?" "Yes" 100 0.5))
                empty_summary))) = 1.
Proof.
  destruct (side_letter_case_alert_vs_summary quiet alpha "Alpha" "buy"
              {| Act.type := Some "TRADE"; Act.transactionHash := Some "0x01";
                 Act.side := Some "buy"; Act.title := Some "Will X happen?";
                 Act.outcome := Some "Yes";
                 Act.usdcSize := Some (JNum 100); Act.price := Some (JNum 0.5) |}
              100%float 0.5%float two_wallets empty_summary)
    as [Halert Hcount]; try reflexivity.
  - discriminate.
  - split.
    + apply Halert; [discriminate | intros []].
    + destruct Hcount as [Hbuy _]; [discriminate | exact Hbuy].
Defined.

(** ** The commands that only answer *)

(** X20: [/start], [/help] and [/list], whatever their arguments, and [/add]
    and [/remove] without an argument, never raise and do nothing but send
    one reply: the registry, the file, the seen hashes and the channel stay
    as they were.  [/list] on an empty registry answers that no wallet is
    watched, and the two usage replies are the fixed texts. *)
Theorem informational_commands_only_reply `{Runtime} (w : world) (st : tracker) :
  (forall h args,
     h = CmdStart \/ h = CmdHelp \/ h = CmdList \/
     ((h = CmdAdd \/ h = CmdRemove) /\ args = []) ->
     exists text, call_handler w h args st = (reply text st, Ok tt)) /\
  (wallets st = [] -> cmd_list st = (reply "Aucun wallet surveillé" st, Ok tt)) /\
  cmd_add [] st = (reply usage_add st, Ok tt) /\
  cmd_remove [] st = (reply "Usage: /remove 0xADRESSE" st, Ok tt).
Proof.
  split; [| split; [| split; reflexivity]].
  - intros h args [-> | [-> | [-> | [[-> | ->] ->]]]]; cbn [call_handler];
      try (eexists; reflexivity).
    apply cmd_list_replies.
  - intros Hempty. unfold cmd_list, bind, get, modify. now rewrite Hempty.
Qed.
